(** * Experimental features: resolution, overrides and change notification

    A shallow embedding of
    [packages/webviz-core/src/components/ExperimentalFeatures.js]:
    the resolution of the feature catalog against the persisted overrides
    ([getExperimentalFeatureSettings]), the two read entry points
    ([getExperimentalFeature], [useExperimentalFeature]), the write entry
    point ([setExperimentalFeature]), the list of subscribed components and
    the radio handler of the settings dialog.

    Modelling conventions.
    - A JavaScript object used as a dictionary is a finite map of its own
      properties ([gmap string _]).  The members a plain object inherits
      from [Object.prototype] are modelled where the program can tell them
      from an absent property: in the reads [settings[id]] of the read entry
      points and of the dialog, and in the assignment [newSettings[id] =
      value], which for ["__proto__"] reaches the setter of the prototype.
      The catalog is taken to have no own property ["__proto__"].
    - Persisted data is kept at the level of deserialized JSON values
      ([JS.json]); [undefined] is [None].  Numbers are finite and kept by
      their value; a string is a sequence of characters, one per code
      unit.
    - Exceptions are explicit: a computation of type [M A] returns either
      [Ok a w] or [Throw e w], where [w] is the state of the program when
      it returned or threw.
    - The state carries a trace of the calls made to the collaborators
      (event logger, storage writes, subscriber callbacks).  The trace is
      ghost state: the program never reads it. *)

From stdpp Require Import base gmap list strings pretty.
From Stdlib Require Import QArith_base.

Set Warnings "-register-all".
#[local] Close Scope Q_scope.
#[local] Open Scope string_scope.

(** ** JavaScript values that can come out of the storage *)

Module JS.

(** What [JSON.parse] can produce.  A (finite) number is kept by its
    value; the program only ever tests numbers for truthiness. *)
Inductive json : Type :=
  | JNull
  | JBool (b : bool)
  | JNum (q : Q)
  | JStr (s : string)
  | JArr (l : list json)
  | JObj (m : gmap string json).

(** A value is a JSON value or [undefined]. *)
Definition value : Type := option json.
Definition undefined : value := None.

Definition is_zero (q : Q) : bool := Z.eqb (Qnum q) 0.

(** ToBoolean. *)
Definition truthy (v : value) : bool :=
  match v with
  | None => false
  | Some JNull => false
  | Some (JBool b) => b
  | Some (JNum q) => negb (is_zero q)
  | Some (JStr s) => negb (bool_decide (s = ""))
  | Some (JArr _) => true
  | Some (JObj _) => true
  end.

(** [v || dflt] for a default that is a JSON value. *)
Definition or_else (v : value) (dflt : json) : json :=
  match v with
  | Some j => if truthy (Some j) then j else dflt
  | None => dflt
  end.

(** The characters of a string, each as a string of length one. *)
Definition chars (s : string) : list json :=
  (λ c, JStr (String c EmptyString)) <$> String.list_ascii_of_string s.

(** The index properties ["0"], ["1"], ... of an array-like value. *)
Definition indexed (l : list json) : gmap string json :=
  list_to_map (imap (λ i x, (pretty i, x)) l).

Definition length_value (n : nat) : json := JNum (inject_Z (Z.of_nat n)).

(** The own enumerable properties of a value: what [{ ...v }] copies.
    Spreading [undefined], [null], a boolean or a number copies nothing. *)
Definition spread (v : value) : gmap string json :=
  match v with
  | Some (JObj m) => m
  | Some (JArr l) => indexed l
  | Some (JStr s) => indexed (chars s)
  | Some (JNum _) | Some (JBool _) | Some JNull | None => ∅
  end.

(** The property [id] of a value that has properties: an own property of
    an object, an element or the length of an array, a character or the
    length of a string; numbers and booleans have none.  The program only
    compares what it reads here with two strings; inherited members are
    functions or objects, so for that comparison they are as good as
    [undefined]. *)
Definition prop (j : json) (id : string) : value :=
  match j with
  | JObj m => m !! id
  | JArr l =>
      if bool_decide (id = "length") then Some (length_value (length l))
      else indexed l !! id
  | JStr s =>
      if bool_decide (id = "length") then Some (length_value (String.length s))
      else indexed (chars s) !! id
  | JNum _ | JBool _ | JNull => undefined
  end.


(** [v === s] for a string literal [s] (also the SameValueZero test that
    [Array.prototype.includes] applies to a string element). *)
Definition strict_equals (v : value) (s : string) : bool :=
  match v with
  | Some (JStr t) => bool_decide (t = s)
  | _ => false
  end.

(** [l.includes(v)] for an array literal of strings. *)
Definition includes (l : list string) (v : value) : bool :=
  existsb (strict_equals v) l.

(** The names of the members of [Object.prototype].  A plain object that
    has no own property of such a name inherits the member: a function, or
    for ["__proto__"] the prototype itself; never a primitive value, always a
    truthy one. *)
Definition Object_prototype_names : list string :=
  [ "constructor"; "__defineGetter__"; "__defineSetter__"; "hasOwnProperty";
    "__lookupGetter__"; "__lookupSetter__"; "isPrototypeOf";
    "propertyIsEnumerable"; "toString"; "valueOf"; "__proto__";
    "toLocaleString" ].

Definition inherited (id : string) : bool :=
  bool_decide (id ∈ Object_prototype_names).

(** [obj[id] = v] for a plain object [obj] and a primitive value [v]: an own
    property is set or created, except that for ["__proto__"], when it is
    not an own property, the assignment reaches the setter of
    [Object.prototype], which ignores a primitive value. *)
Definition assign (id : string) (v : json) (m : gmap string json) : gmap string json :=
  match m !! id with
  | Some _ => <[id := v]> m
  | None => if bool_decide (id = "__proto__") then m else <[id := v]> m
  end.

End JS.

Import JS.

(** ** The types exported by the module *)

Record FeatureDescription : Type := {
  name : string;
  description : string;
  developmentDefault : bool;
  productionDefault : bool;
}.

Record ResolvedFeature : Type := {
  enabled : bool;
  manuallySet : bool;
}.

Abbreviation FeatureDescriptions := (gmap string FeatureDescription).
Abbreviation FeatureSettings := (gmap string ResolvedFeature).

Definition EXPERIMENTAL_FEATURES_STORAGE_KEY : string :=
  "experimentalFeaturesSettings".

(** The two property names [getDefaultKey] can return. *)
Inductive DefaultKey : Type :=
  | productionDefaultKey
  | developmentDefaultKey.

(** [feature[key]] for one of those two names. *)
Definition feature_field (feature : FeatureDescription) (key : DefaultKey) : bool :=
  match key with
  | productionDefaultKey => productionDefault feature
  | developmentDefaultKey => developmentDefault feature
  end.

(** What can be thrown. [LoggerError] stands for whatever the event logger
    throws. *)
Inductive Error : Type :=
  | TypeError
  | InvalidRadioValue (v : string)
  | LoggerError.

(** The event handed to the logger: [{ name: CHANGE_EXPERIMENTAL_FEATURE,
    tags: { feature, value } }]. *)
Record LogEvent : Type := {
  feature : string;
  value : string;
}.

Inductive LoggerOutcome : Type :=
  | Returns
  | Throws.

(** Ghost trace of collaborator calls. [EvUpdate c seen] is one invocation
    of the callback of component [c]; [seen] is the value persisted under
    the storage key at that moment. *)
Inductive Event : Type :=
  | EvLogger (ev : LogEvent)
  | EvStorageSet (key : string) (v : json)
  | EvUpdate (c : nat) (seen : JS.value).

#[global] Instance Error_eq_dec : EqDecision Error.
Proof. solve_decision. Defined.
#[global] Instance LoggerOutcome_eq_dec : EqDecision LoggerOutcome.
Proof. solve_decision. Defined.
#[global] Instance ResolvedFeature_eq_dec : EqDecision ResolvedFeature.
Proof. solve_decision. Defined.

(** The collaborators reached through [getGlobalHooks()] and the process
    environment.  They are fixed for the lifetime of the process. *)
Class GlobalHooks : Type := {
  (** [getGlobalHooks().experimentalFeaturesList()] *)
  experimentalFeaturesList : FeatureDescriptions;
  (** [process.env.NODE_ENV] *)
  NODE_ENV : option string;
  (** [getGlobalHooks().getEventLogger().logger]: it may keep a state of its
      own, and it may throw *)
  LoggerState : Type;
  logger : LogEvent → LoggerState → LoggerOutcome * LoggerState;
}.

Section ExperimentalFeatures.

Context `{hooks : GlobalHooks}.

(** *** Program state *)

Record World : Type := mkWorld {
  (** the backing store of [Storage]: deserialized value per key *)
  storage : gmap string json;
  (** the module-level array [subscribedComponents]; a callback is
      identified by the component instance that created it *)
  subscribedComponents : list nat;
  (** the [settings] state of each mounted [useAllExperimentalFeatures] *)
  hookState : gmap nat FeatureSettings;
  loggerState : LoggerState;
  trace : list Event;
}.

Definition set_storage (f : gmap string json → gmap string json) (w : World) : World :=
  mkWorld (f (storage w)) (subscribedComponents w) (hookState w) (loggerState w) (trace w).
Definition set_subscribedComponents (f : list nat → list nat) (w : World) : World :=
  mkWorld (storage w) (f (subscribedComponents w)) (hookState w) (loggerState w) (trace w).
Definition set_hookState (f : gmap nat FeatureSettings → gmap nat FeatureSettings) (w : World) : World :=
  mkWorld (storage w) (subscribedComponents w) (f (hookState w)) (loggerState w) (trace w).
Definition set_loggerState (l : LoggerState) (w : World) : World :=
  mkWorld (storage w) (subscribedComponents w) (hookState w) l (trace w).
Definition emit (e : Event) (w : World) : World :=
  mkWorld (storage w) (subscribedComponents w) (hookState w) (loggerState w) (trace w ++ [e]).

(** *** State and exception monad *)

Inductive Res (A : Type) : Type :=
  | Ok (a : A) (w : World)
  | Throw (e : Error) (w : World).
Arguments Ok {A} a w.
Arguments Throw {A} e w.

Definition M (A : Type) : Type := World → Res A.

Definition world_of {A} (r : Res A) : World :=
  match r with Ok _ w => w | Throw _ w => w end.

#[global] Instance M_ret : MRet M := λ A a w, Ok a w.
#[global] Instance M_bind : MBind M := λ A B k m w,
  match m w with
  | Ok a w' => k a w'
  | Throw e w' => Throw e w'
  end.

Definition throw {A} (e : Error) : M A := λ w, Throw e w.
Definition get_world : M World := λ w, Ok w w.
Definition modify (f : World → World) : M unit := λ w, Ok tt (f w).

(** [for (const x of l) body(x)] and the accumulating form used for
    [for (const id in obj)]. *)
Fixpoint for_of {A} (body : A → M unit) (l : list A) : M unit :=
  match l with
  | [] => mret tt
  | x :: l' => body x ;; for_of body l'
  end.

Fixpoint for_in {A B} (body : B → A → M B) (acc : B) (l : list A) : M B :=
  match l with
  | [] => mret acc
  | x :: l' => acc' ← body acc x; for_in body acc' l'
  end.

(** [v[id]]. Reading a property of [undefined] or [null] throws. *)
Definition get_prop (v : JS.value) (id : string) : M JS.value :=
  match v with
  | None | Some JNull => throw TypeError
  | Some j => mret (prop j id)
  end.

(** *** Storage *)

(** Modelled from the spec: the class [Storage]
    ([webviz-core/src/util/Storage]) is imported, not defined, by the
    source file.  [get] deserializes the value persisted under the key and
    gives [undefined] when there is none; [set] serializes and persists the
    full value, replacing any prior content.  The values written by this
    program are objects of JSON values, for which serializing and
    deserializing is the identity. *)
Definition Storage_get (key : string) : M JS.value :=
  λ w, Ok (storage w !! key) w.

Definition Storage_set (key : string) (v : json) : M unit :=
  modify (λ w, emit (EvStorageSet key v) (set_storage (insert key v) w)).

(** *** Resolution *)

Definition getExperimentalFeaturesList : FeatureDescriptions :=
  experimentalFeaturesList.

Definition getDefaultKey : DefaultKey :=
  if bool_decide (NODE_ENV = Some "production")
  then productionDefaultKey
  else developmentDefaultKey.

(** The body of the [for ... in] loop of [getExperimentalFeatureSettings],
    for one [id] of the list and its description. *)
Definition resolve_one (featureStorage : json) (settings : FeatureSettings)
    (entry : string * FeatureDescription) : M FeatureSettings :=
  let '(id, feature) := entry in
  stored ← get_prop (Some featureStorage) id;
  if includes ["alwaysOn"; "alwaysOff"] stored then
    mret (<[id := {| enabled := strict_equals stored "alwaysOn";
                     manuallySet := true |}]> settings)
  else
    mret (<[id := {| enabled := feature_field feature getDefaultKey;
                     manuallySet := false |}]> settings).

Definition getExperimentalFeatureSettings : M FeatureSettings :=
  let experimentalFeaturesList := getExperimentalFeaturesList in
  stored ← Storage_get EXPERIMENTAL_FEATURES_STORAGE_KEY;
  let featureStorage := or_else stored (JObj ∅) in
  for_in (resolve_one featureStorage) ∅ (map_to_list experimentalFeaturesList).

(** *** Subscribed components *)

(** [setSettings] of the component instance [c]. *)
Definition setSettings (c : nat) (settings : FeatureSettings) : M unit :=
  modify (set_hookState (insert c settings)).

(** The closure [update] created by the effect of component [c]. *)
Definition update (c : nat) : M unit :=
  modify (λ w, emit (EvUpdate c (storage w !! EXPERIMENTAL_FEATURES_STORAGE_KEY)) w) ;;
  settings ← getExperimentalFeatureSettings;
  setSettings c settings.

(** The effect of [useAllExperimentalFeatures] in component instance [c]:
    it pushes the closure [update]. *)
Definition subscribe (c : nat) : M unit :=
  modify (set_subscribedComponents (λ l, (l ++ [c])%list)).

(** [useAllExperimentalFeatures] in component instance [c]: the first
    render initializes the state and schedules the effect; later renders
    return the state.  React runs the effect once the render that called
    the hook has completed, and forgets the state and the effect of a render
    that throws: the effect is recorded here with the render, and a render
    whose body can throw after the hook is run through [render] below, which
    undoes both when it does. *)
Definition useAllExperimentalFeatures (c : nat) : M FeatureSettings :=
  w ← get_world;
  match hookState w !! c with
  | Some settings => mret settings
  | None =>
      settings ← getExperimentalFeatureSettings;
      setSettings c settings ;;
      subscribe c ;;
      mret settings
  end.

(** One render of a component with the given body: when the body throws,
    nothing of the render is kept, neither the state of its hooks nor their
    effects. *)
Definition render {A} (body : M A) : M A :=
  λ w,
    match body w with
    | Ok a w' => Ok a w'
    | Throw e _ => Throw e w
    end.

(** The cleanup returned by the effect, run when [c] unmounts; the state
    of the hook goes away with the component. *)
Definition cleanup (c : nat) : M unit :=
  modify (set_subscribedComponents (filter (λ fn, fn ≠ c))) ;;
  modify (set_hookState (delete c)).

(** [if (!settings[id]) { return false; } return settings[id].enabled;]
    where [settings] is a settings object: an own entry gives its [enabled];
    a member inherited from [Object.prototype] is truthy and has no
    [enabled], which gives [undefined]; otherwise [false]. *)
Definition lookup_enabled (settings : FeatureSettings) (id : string) : JS.value :=
  match settings !! id with
  | Some s => Some (JBool (enabled s))
  | None => if inherited id then undefined else Some (JBool false)
  end.

Definition useExperimentalFeature (c : nat) (id : string) : M JS.value :=
  settings ← useAllExperimentalFeatures c;
  mret (lookup_enabled settings id).

Definition getExperimentalFeature (id : string) : M JS.value :=
  settings ← getExperimentalFeatureSettings;
  mret (lookup_enabled settings id).

(** *** The write entry point *)

Definition call_logger (ev : LogEvent) : M unit :=
  λ w,
    let w1 := emit (EvLogger ev) w in
    match logger ev (loggerState w) with
    | (Returns, l) => Ok tt (set_loggerState l w1)
    | (Throws, l) => Throw LoggerError (set_loggerState l w1)
    end.

Definition setExperimentalFeature (id value : string) : M unit :=
  stored ← Storage_get EXPERIMENTAL_FEATURES_STORAGE_KEY;
  let newSettings := spread stored in
  call_logger {| feature := id; value := value |} ;;
  let newSettings :=
    if bool_decide (value = "default") then delete id newSettings
    else assign id (JStr value) newSettings in
  Storage_set EXPERIMENTAL_FEATURES_STORAGE_KEY (JObj newSettings) ;;
  w ← get_world;
  for_of update (subscribedComponents w).

(** The [onChange] handler of the radio group of feature [id] in
    [ExperimentalFeaturesModal]. *)
Definition Radio_onChange (id value : string) : M unit :=
  if negb (bool_decide (value = "default"))
     && negb (bool_decide (value = "alwaysOn"))
     && negb (bool_decide (value = "alwaysOff"))
  then throw (InvalidRadioValue value)
  else setExperimentalFeature id value.

(** *** Closed form of the resolution *)

(** [featureStorage[id]] as [getExperimentalFeatureSettings] reads it in
    state [w]. *)
Definition stored_entry (w : World) (id : string) : JS.value :=
  prop (or_else (storage w !! EXPERIMENTAL_FEATURES_STORAGE_KEY) (JObj ∅)) id.

(** The two branches of the loop body, as a function of the entry read. *)
Definition resolved (entry : JS.value) (feature : FeatureDescription) : ResolvedFeature :=
  if includes ["alwaysOn"; "alwaysOff"] entry
  then {| enabled := strict_equals entry "alwaysOn"; manuallySet := true |}
  else {| enabled := feature_field feature getDefaultKey; manuallySet := false |}.

(** The settings object the loop builds in state [w]. *)
Definition resolution (w : World) : FeatureSettings :=
  map_imap (λ id feature, Some (resolved (stored_entry w id) feature))
    getExperimentalFeaturesList.

(** The state after one run of [update c]. *)
Definition update_world (c : nat) (w : World) : World :=
  set_hookState (insert c (resolution w))
    (emit (EvUpdate c (storage w !! EXPERIMENTAL_FEATURES_STORAGE_KEY)) w).

(** The state after the notification loop over [l]. *)
Definition notify_all (l : list nat) (w : World) : World :=
  foldl (λ w c, update_world c w) w l.

(** The object [setExperimentalFeature id value] hands to [storage.set]
    when [stored] is what [storage.get] returned. *)
Definition written (id value : string) (stored : JS.value) : gmap string json :=
  if bool_decide (value = "default") then delete id (spread stored)
  else assign id (JStr value) (spread stored).

(** The state in which the logger has been called with [ev] and left its
    own state at [l]. *)
Definition logged (ev : LogEvent) (l : LoggerState) (w : World) : World :=
  set_loggerState l (emit (EvLogger ev) w).

(** The state after [storage.set(key, v)]. *)
Definition stored_world (key : string) (v : json) (w : World) : World :=
  emit (EvStorageSet key v) (set_storage (insert key v) w).

(** The state in which [setExperimentalFeature id value] returns when it
    was called in [w] and the logger returned, leaving its state at [l]. *)
Definition set_world (id value : string) (l : LoggerState) (w : World) : World :=
  let ev := {| feature := id; value := value |} in
  let stored := storage w !! EXPERIMENTAL_FEATURES_STORAGE_KEY in
  notify_all (subscribedComponents w)
    (stored_world EXPERIMENTAL_FEATURES_STORAGE_KEY
       (JObj (written id value stored)) (logged ev l w)).

(** The state after the first render of component [c]. *)
Definition mount_world (c : nat) (w : World) : World :=
  set_subscribedComponents (λ l, (l ++ [c])%list)
    (set_hookState (insert c (resolution w)) w).

(** *** Executions *)

(** The component ids notified by a stretch of the trace, in order. *)
Definition notified (events : list Event) : list nat :=
  omap (λ e, match e with EvUpdate c _ => Some c | _ => None end) events.

(** The events a run starting in [w] has added when it is in [w']. *)
Definition new_events (w w' : World) : list Event :=
  drop (length (trace w)) (trace w').

(** At start-up nothing is mounted. *)
Definition initial (w : World) : Prop :=
  subscribedComponents w = [] ∧ hookState w = ∅.

(** What can happen between two states: a component renders (mounting on
    its first render) or unmounts, one of the entry points is called with
    any arguments (returning or throwing), or the persisted data is
    changed from outside the program. *)
Inductive step : World → World → Prop :=
  | step_render c id w :
      step w (world_of (useExperimentalFeature c id w))
  | step_unmount c w :
      step w (world_of (cleanup c w))
  | step_get id w :
      step w (world_of (getExperimentalFeature id w))
  | step_set id value w :
      step w (world_of (setExperimentalFeature id value w))
  | step_radio id value w :
      step w (world_of (Radio_onChange id value w))
  | step_storage f w :
      step w (set_storage f w).

Inductive reachable : World → Prop :=
  | reachable_initial w : initial w → reachable w
  | reachable_step w w' : reachable w → step w w' → reachable w'.

(** What holds of the subscribers in every reachable state: no callback
    is registered twice, every registered callback belongs to a mounted
    component, and the settings held by a component only have entries for
    ids of the catalog. *)
Definition subscribers_mounted (w : World) : Prop :=
  ∀ c, c ∈ subscribedComponents w → is_Some (hookState w !! c).

Definition hooks_within_catalog (w : World) : Prop :=
  ∀ c settings id,
    hookState w !! c = Some settings →
    experimentalFeaturesList !! id = None →
    settings !! id = None.

Definition invariant (w : World) : Prop :=
  NoDup (subscribedComponents w) ∧ subscribers_mounted w ∧ hooks_within_catalog w.

End ExperimentalFeatures.

Arguments Ok {hooks A} a w.
Arguments Throw {hooks A} e w.

(** ** The settings dialog *)

(** [window.location.host]. *)
Class Window : Type := {
  location_host : string;
}.

(** What [ExperimentalFeaturesModal] renders, reduced to the parts that
    depend on the catalog and on the settings: whether the notice "Currently
    there are no experimental features" is shown, and for each feature its
    heading (name, id, on/off icon, "manually set" icon), its description and
    the props handed to its [Radio]. *)
Inductive Icon : Type :=
  | IconOn
  | IconOff.

Record RadioOption : Type := {
  option_id : string;
  option_label : string;
}.

Record FeatureRow : Type := {
  row_id : string;
  row_name : string;
  row_icon : Icon;
  row_manuallySet : bool;
  row_description : string;
  radio_selectedId : string;
  radio_options : list RadioOption;
}.

Record ModalView : Type := {
  no_features_notice : bool;
  rows : list FeatureRow;
}.

(** The props of the dialog that bear on what is shown. *)
Record ModalProps : Type := {
  listForStories : option FeatureDescriptions;
  settingsForStories : option FeatureSettings;
}.

Definition no_story_props : ModalProps :=
  {| listForStories := None; settingsForStories := None |}.

Section Dialog.

Context `{hooks : GlobalHooks} `{window : Window}.

(** [l.map(f)] for a callback that may throw. *)
Fixpoint array_map {A B} (f : A → M B) (l : list A) : M (list B) :=
  match l with
  | [] => mret []
  | x :: l' => y ← f x; ys ← array_map f l'; mret (y :: ys)
  end.

(** What the dialog reads of [settings[id]]: whether [settings[id].enabled]
    and [settings[id].manuallySet] are truthy.  For an own entry these are
    its two fields; a member inherited from [Object.prototype] has neither,
    so both are [undefined]; reading a property of [undefined] throws. *)
Definition get_setting (settings : FeatureSettings) (id : string) : M ResolvedFeature :=
  match settings !! id with
  | Some s => mret s
  | None =>
      if inherited id then mret {| enabled := false; manuallySet := false |}
      else throw TypeError
  end.

(** The three options of the radio group of a feature. *)
Definition radio_options_of (feature : FeatureDescription) : list RadioOption :=
  [ {| option_id := "default";
       option_label :=
         "Default for " ++ location_host ++ " ("
         ++ (if feature_field feature getDefaultKey then "on" else "off") ++ ")" |};
    {| option_id := "alwaysOn"; option_label := "Always on" |};
    {| option_id := "alwaysOff"; option_label := "Always off" |} ].

(** The callback of [Object.keys(list).map], for one id and [list[id]]. *)
Definition render_row (settings : FeatureSettings)
    (entry : string * FeatureDescription) : M FeatureRow :=
  let '(id, feature) := entry in
  s ← get_setting settings id;
  mret {| row_id := id;
          row_name := name feature;
          row_icon := if enabled s then IconOn else IconOff;
          row_manuallySet := manuallySet s;
          row_description := description feature;
          radio_selectedId :=
            if manuallySet s then (if enabled s then "alwaysOn" else "alwaysOff")
            else "default";
          radio_options := radio_options_of feature |}.

(** One render of the dialog in component instance [c]. *)
Definition ExperimentalFeaturesModal (c : nat) (props : ModalProps) : M ModalView :=
  render (
    actualSettings ← useAllExperimentalFeatures c;
    let settings := default actualSettings (settingsForStories props) in
    let list := default getExperimentalFeaturesList (listForStories props) in
    rows ← array_map (render_row settings) (map_to_list list);
    mret {| no_features_notice := bool_decide (length (map_to_list list) = 0);
            rows := rows |}).

(** The row of a feature whose settings are [s], and the rows the dialog
    shows for the entries of [l] whose settings can be read. *)
Definition row_of (id : string) (feature : FeatureDescription) (s : ResolvedFeature)
    : FeatureRow :=
  {| row_id := id;
     row_name := name feature;
     row_icon := if enabled s then IconOn else IconOff;
     row_manuallySet := manuallySet s;
     row_description := description feature;
     radio_selectedId :=
       if manuallySet s then (if enabled s then "alwaysOn" else "alwaysOff")
       else "default";
     radio_options := radio_options_of feature |}.

(** What [get_setting] returns when it does not throw. *)
Definition setting_of (settings : FeatureSettings) (id : string) : option ResolvedFeature :=
  match settings !! id with
  | Some s => Some s
  | None =>
      if inherited id then Some {| enabled := false; manuallySet := false |}
      else None
  end.

Definition rows_of (settings : FeatureSettings)
    (l : list (string * FeatureDescription)) : list FeatureRow :=
  omap (λ entry, row_of entry.1 entry.2 <$> setting_of settings entry.1) l.

(** A stronger form of what holds in the reachable states: the registered
    callbacks are those of the mounted components, and the settings a
    component holds are what the resolution gave in some state. *)
Definition registry_is_mounted (w : World) : Prop :=
  ∀ c, c ∈ subscribedComponents w ↔ is_Some (hookState w !! c).

Definition hooks_are_resolutions (w : World) : Prop :=
  ∀ c settings,
    hookState w !! c = Some settings →
    ∃ w0, settings = resolution w0.

End Dialog.

(** ** A concrete catalog, used to run the definitions *)

Module Example.

Definition featureA : FeatureDescription :=
  {| name := "Feature A"; description := "first example feature";
     developmentDefault := true; productionDefault := false |}.

Definition featureB : FeatureDescription :=
  {| name := "Feature B"; description := "second example feature";
     developmentDefault := false; productionDefault := true |}.

Definition catalog : FeatureDescriptions :=
  {[ "featureA" := featureA; "featureB" := featureB ]}.


Definition quiet_logger (ev : LogEvent) (n : nat) : LoggerOutcome * nat :=
  (Returns, S n).

Definition failing_logger (ev : LogEvent) (n : nat) : LoggerOutcome * nat :=
  (Throws, S n).

Definition production : GlobalHooks :=
  {| experimentalFeaturesList := catalog; NODE_ENV := Some "production";
     LoggerState := nat; logger := quiet_logger |}.

Definition development : GlobalHooks :=
  {| experimentalFeaturesList := catalog; NODE_ENV := Some "development";
     LoggerState := nat; logger := quiet_logger |}.

Definition broken_logging : GlobalHooks :=
  {| experimentalFeaturesList := catalog; NODE_ENV := Some "production";
     LoggerState := nat; logger := failing_logger |}.


(** A state with the given persisted value and subscribers, their hook
    states empty, and no history. *)
Definition world_with `{hooks : GlobalHooks} (l : LoggerState)
    (stored : gmap string json) (subs : list nat) : World :=
  mkWorld stored subs (list_to_map ((λ c, (c, ∅)) <$> subs)) l [].

Definition overrides (m : gmap string json) : gmap string json :=
  {[ EXPERIMENTAL_FEATURES_STORAGE_KEY := JObj m ]}.

End Example.

(** ** A host and story props for the dialog *)

Module DialogExample.

Import Example.

Definition localhost : Window := {| location_host := "localhost:8080" |}.

(** Story props that list [featureA] without giving it settings. *)
Definition story_without_settings : ModalProps :=
  {| listForStories := Some {[ "featureA" := featureA ]};
     settingsForStories := Some ∅ |}.

(** Story props that list [featureA] as manually switched on. *)
Definition story_with_settings : ModalProps :=
  {| listForStories := Some {[ "featureA" := featureA ]};
     settingsForStories :=
       Some {[ "featureA" := {| enabled := true; manuallySet := true |} ]} |}.

End DialogExample.

(** ** Properties *)

Section Properties.

Context `{hooks : GlobalHooks}.

(** *** Running the monad *)

Lemma run_bind {A B} (m : M A) (k : A → M B) (w : World) :
  (m ≫= k) w =
  match m w with
  | Ok a w' => k a w'
  | Throw e w' => Throw e w'
  end.
Proof. reflexivity. Qed.

Lemma run_ret {A} (a : A) (w : World) : (mret a : M A) w = Ok a w.
Proof. reflexivity. Qed.

(** *** The resolution loop never throws and computes [resolution] *)

Lemma or_else_object_not_null (v : JS.value) : or_else v (JObj ∅) ≠ JNull.
Proof.
  destruct v as [j|]; simpl; [|discriminate].
  destruct j; simpl; try discriminate.
  - destruct b; discriminate.
  - destruct (is_zero q); discriminate.
  - destruct (bool_decide (s = "")); discriminate.
Qed.

Lemma get_prop_not_null (j : json) (id : string) (w : World) :
  j ≠ JNull → get_prop (Some j) id w = Ok (prop j id) w.
Proof. intros Hj. destruct j; done. Qed.

Lemma resolve_one_run (fs : json) (settings : FeatureSettings)
    (id : string) (feature : FeatureDescription) (w : World) :
  fs ≠ JNull →
  resolve_one fs settings (id, feature) w
  = Ok (<[id := resolved (prop fs id) feature]> settings) w.
Proof.
  intros Hfs. unfold resolve_one. rewrite run_bind, get_prop_not_null by done.
  unfold resolved. by destruct (includes _ _).
Qed.

Lemma for_in_resolve_one (fs : json) (l : list (string * FeatureDescription))
    (acc : FeatureSettings) (w : World) :
  fs ≠ JNull →
  for_in (resolve_one fs) acc l w
  = Ok (foldl (λ settings e, <[e.1 := resolved (prop fs e.1) e.2]> settings) acc l) w.
Proof.
  intros Hfs. revert acc. induction l as [|[id feature] l IH]; intros acc.
  - reflexivity.
  - cbn [for_in foldl]. rewrite run_bind, resolve_one_run by done. apply IH.
Qed.

Lemma foldl_insert_lookup {A B} (g : string → A → B)
    (l : list (string * A)) (acc : gmap string B) (id : string) :
  NoDup l.*1 →
  foldl (λ settings e, <[e.1 := g e.1 e.2]> settings) acc l !! id
  = match (list_to_map l : gmap string A) !! id with
    | Some a => Some (g id a)
    | None => acc !! id
    end.
Proof.
  revert acc. induction l as [|[k a] l IH]; intros acc Hnd.
  - simpl. by rewrite lookup_empty.
  - apply NoDup_cons in Hnd as [Hk Hnd]. cbn [foldl list_to_map foldr fst snd].
    rewrite IH by done. destruct (decide (k = id)) as [->|Hne].
    + rewrite lookup_insert_eq.
      rewrite (not_elem_of_list_to_map_1 (M := gmap string) l id) by done.
      by rewrite lookup_insert_eq.
    + rewrite (lookup_insert_ne (list_to_map l)) by done.
      destruct (list_to_map l !! id); [done|].
      by rewrite lookup_insert_ne.
Qed.

Lemma getExperimentalFeatureSettings_run (w : World) :
  getExperimentalFeatureSettings w = Ok (resolution w) w.
Proof.
  unfold getExperimentalFeatureSettings.
  rewrite run_bind. cbn [Storage_get].
  rewrite for_in_resolve_one by apply or_else_object_not_null.
  f_equal. apply map_eq. intros id.
  rewrite (foldl_insert_lookup (λ id feature, resolved (prop _ id) feature))
    by apply NoDup_fst_map_to_list.
  rewrite list_to_map_to_list. unfold resolution, getExperimentalFeaturesList.
  rewrite lookup_empty, map_lookup_imap. unfold stored_entry.
  by destruct (experimentalFeaturesList !! id).
Qed.

Lemma resolution_lookup (w : World) (id : string) :
  resolution w !! id
  = resolved (stored_entry w id) <$> experimentalFeaturesList !! id.
Proof.
  unfold resolution, getExperimentalFeaturesList. rewrite map_lookup_imap.
  by destruct (experimentalFeaturesList !! id).
Qed.

(** *** The notification loop *)

Lemma update_run (c : nat) (w : World) : update c w = Ok tt (update_world c w).
Proof.
  unfold update. rewrite run_bind. cbn [modify].
  rewrite run_bind, getExperimentalFeatureSettings_run. reflexivity.
Qed.

Lemma for_of_update_run (l : list nat) (w : World) :
  for_of update l w = Ok tt (notify_all l w).
Proof.
  revert w. induction l as [|c l IH]; intros w; [reflexivity|].
  cbn [for_of]. rewrite run_bind, update_run. apply IH.
Qed.

Lemma notify_all_cons (c : nat) (l : list nat) (w : World) :
  notify_all (c :: l) w = notify_all l (update_world c w).
Proof. reflexivity. Qed.

(** The loop only touches the hook states and the trace: the other fields
    go through it unchanged, by the same induction. *)
Ltac notify_all_frame l w :=
  revert w; induction l as [|? l IH]; intros w;
  [reflexivity | by rewrite notify_all_cons, IH].

Lemma notify_all_storage (l : list nat) (w : World) :
  storage (notify_all l w) = storage w.
Proof. notify_all_frame l w. Qed.

Lemma notify_all_subscribedComponents (l : list nat) (w : World) :
  subscribedComponents (notify_all l w) = subscribedComponents w.
Proof. notify_all_frame l w. Qed.

Lemma notify_all_loggerState (l : list nat) (w : World) :
  loggerState (notify_all l w) = loggerState w.
Proof. notify_all_frame l w. Qed.

Lemma resolution_storage (w w' : World) :
  storage w' !! EXPERIMENTAL_FEATURES_STORAGE_KEY
  = storage w !! EXPERIMENTAL_FEATURES_STORAGE_KEY →
  resolution w' = resolution w.
Proof. intros H. unfold resolution, stored_entry. by rewrite H. Qed.

Lemma notify_all_trace (l : list nat) (w : World) :
  trace (notify_all l w)
  = (trace w ++
     ((λ c, EvUpdate c (storage w !! EXPERIMENTAL_FEATURES_STORAGE_KEY)) <$> l))%list.
Proof.
  revert w. induction l as [|c l IH]; intros w.
  - simpl. by rewrite app_nil_r.
  - rewrite notify_all_cons, IH, fmap_cons. cbn [update_world set_hookState emit trace storage].
    by rewrite <- app_assoc.
Qed.

Lemma notify_all_hookState (l : list nat) (w : World) (c : nat) :
  hookState (notify_all l w) !! c
  = if bool_decide (c ∈ l) then Some (resolution w) else hookState w !! c.
Proof.
  revert w. induction l as [|c' l IH]; intros w.
  - rewrite bool_decide_eq_false_2 by apply not_elem_of_nil. done.
  - rewrite notify_all_cons, IH. rewrite (resolution_storage w (update_world c' w)) by done.
    destruct (decide (c ∈ l)) as [Hin|Hin].
    + rewrite !bool_decide_eq_true_2; [done|by right|done].
    + rewrite (bool_decide_eq_false_2 (c ∈ l)) by done.
      cbn [update_world set_hookState emit hookState].
      destruct (decide (c = c')) as [->|Hne].
      * rewrite lookup_insert_eq, bool_decide_eq_true_2; [done|by left].
      * rewrite lookup_insert_ne by done.
        rewrite bool_decide_eq_false_2; [done|].
        intros [?|?]%elem_of_cons; done.
Qed.

(** *** The shape of a run of [setExperimentalFeature] *)

Lemma setExperimentalFeature_run (id value : string) (w : World) :
  setExperimentalFeature id value w =
  let ev := {| feature := id; value := value |} in
  match logger ev (loggerState w) with
  | (Returns, l) => Ok tt (set_world id value l w)
  | (Throws, l) => Throw LoggerError (logged ev l w)
  end.
Proof.
  unfold setExperimentalFeature. rewrite run_bind. cbn [Storage_get].
  rewrite run_bind. unfold call_logger at 1.
  destruct (logger _ _) as [[] l]; cbn zeta; [|reflexivity].
  rewrite run_bind. unfold Storage_set at 1. cbn [modify].
  rewrite run_bind. cbn [get_world].
  rewrite for_of_update_run. reflexivity.
Qed.

Lemma setExperimentalFeature_returns (id value : string) (w : World) (l : LoggerState) :
  logger {| feature := id; value := value |} (loggerState w) = (Returns, l) →
  setExperimentalFeature id value w = Ok tt (set_world id value l w).
Proof. intros H. by rewrite setExperimentalFeature_run; cbn zeta; rewrite H. Qed.

Lemma setExperimentalFeature_throws (id value : string) (w : World) (l : LoggerState) :
  logger {| feature := id; value := value |} (loggerState w) = (Throws, l) →
  setExperimentalFeature id value w
  = Throw LoggerError (logged {| feature := id; value := value |} l w).
Proof. intros H. by rewrite setExperimentalFeature_run; cbn zeta; rewrite H. Qed.

Lemma set_world_storage (id value : string) (l : LoggerState) (w : World) :
  storage (set_world id value l w)
  = <[EXPERIMENTAL_FEATURES_STORAGE_KEY :=
        JObj (written id value (storage w !! EXPERIMENTAL_FEATURES_STORAGE_KEY))]>
      (storage w).
Proof. unfold set_world. by rewrite notify_all_storage. Qed.

Lemma set_world_stored (id value : string) (l : LoggerState) (w : World) :
  storage (set_world id value l w) !! EXPERIMENTAL_FEATURES_STORAGE_KEY
  = Some (JObj (written id value (storage w !! EXPERIMENTAL_FEATURES_STORAGE_KEY))).
Proof. by rewrite set_world_storage, lookup_insert_eq. Qed.

Lemma set_world_subscribedComponents (id value : string) (l : LoggerState) (w : World) :
  subscribedComponents (set_world id value l w) = subscribedComponents w.
Proof. unfold set_world. by rewrite notify_all_subscribedComponents. Qed.

Lemma set_world_loggerState (id value : string) (l : LoggerState) (w : World) :
  loggerState (set_world id value l w) = l.
Proof. unfold set_world. by rewrite notify_all_loggerState. Qed.

Lemma set_world_trace (id value : string) (l : LoggerState) (w : World) :
  let m := JObj (written id value (storage w !! EXPERIMENTAL_FEATURES_STORAGE_KEY)) in
  trace (set_world id value l w)
  = (trace w ++
     EvLogger {| feature := id; value := value |}
     :: EvStorageSet EXPERIMENTAL_FEATURES_STORAGE_KEY m
     :: ((λ c, EvUpdate c (Some m)) <$> subscribedComponents w))%list.
Proof.
  cbn zeta. unfold set_world. rewrite notify_all_trace.
  cbn [stored_world logged emit set_storage set_loggerState trace storage
       subscribedComponents].
  rewrite lookup_insert_eq, <- !app_assoc. reflexivity.
Qed.

Lemma set_world_hookState (id value : string) (l : LoggerState) (w : World) (c : nat) :
  hookState (set_world id value l w) !! c
  = if bool_decide (c ∈ subscribedComponents w)
    then Some (resolution (set_world id value l w))
    else hookState w !! c.
Proof.
  unfold set_world at 1. rewrite notify_all_hookState.
  rewrite (resolution_storage (set_world id value l w)); [done|].
  unfold set_world. by rewrite notify_all_storage.
Qed.

Lemma new_events_app (w w' : World) (events : list Event) :
  trace w' = (trace w ++ events)%list → new_events w w' = events.
Proof. intros H. unfold new_events. by rewrite H, drop_app_length. Qed.

Lemma notified_updates (seen : JS.value) (l : list nat) :
  notified ((λ c, EvUpdate c seen) <$> l) = l.
Proof.
  unfold notified. induction l as [|c l IH]; [done|].
  rewrite fmap_cons. cbn [omap list_omap]. by f_equal.
Qed.

Lemma set_world_notified (id value : string) (l : LoggerState) (w : World) :
  notified (new_events w (set_world id value l w)) = subscribedComponents w.
Proof.
  rewrite (new_events_app _ _ _ (set_world_trace id value l w)).
  cbn [notified omap list_omap]. apply notified_updates.
Qed.

(** *** Entries and the two branches of the resolution *)

Lemma stored_entry_object (w : World) (m : gmap string json) (id : string) :
  storage w !! EXPERIMENTAL_FEATURES_STORAGE_KEY = Some (JObj m) →
  stored_entry w id = m !! id.
Proof. intros H. unfold stored_entry. by rewrite H. Qed.

Lemma stored_entry_absent (w : World) (id : string) :
  storage w !! EXPERIMENTAL_FEATURES_STORAGE_KEY = None →
  stored_entry w id = None.
Proof. intros H. unfold stored_entry. by rewrite H. Qed.

Lemma resolved_no_override (entry : JS.value) (feature : FeatureDescription) :
  entry ≠ Some (JStr "alwaysOn") → entry ≠ Some (JStr "alwaysOff") →
  resolved entry feature
  = {| enabled := feature_field feature getDefaultKey; manuallySet := false |}.
Proof.
  intros Hon Hoff. unfold resolved.
  destruct entry as [[]|]; try done. cbn [includes existsb strict_equals].
  repeat case_bool_decide; subst; done.
Qed.

Lemma feature_field_default (feature : FeatureDescription) :
  feature_field feature getDefaultKey
  = if bool_decide (NODE_ENV = Some "production")
    then productionDefault feature else developmentDefault feature.
Proof. unfold getDefaultKey. by destruct (bool_decide _). Qed.

(** *** The read entry points and the component life cycle *)

Lemma getExperimentalFeature_run (id : string) (w : World) :
  getExperimentalFeature id w = Ok (lookup_enabled (resolution w) id) w.
Proof.
  unfold getExperimentalFeature.
  by rewrite run_bind, getExperimentalFeatureSettings_run.
Qed.

Lemma useExperimentalFeature_run (c : nat) (id : string) (w : World) :
  useExperimentalFeature c id w =
  match hookState w !! c with
  | Some settings => Ok (lookup_enabled settings id) w
  | None => Ok (lookup_enabled (resolution w) id) (mount_world c w)
  end.
Proof.
  unfold useExperimentalFeature, useAllExperimentalFeatures.
  rewrite !run_bind. cbn [get_world].
  destruct (hookState w !! c) as [settings|]; [reflexivity|].
  rewrite run_bind, getExperimentalFeatureSettings_run. reflexivity.
Qed.

Lemma cleanup_run (c : nat) (w : World) :
  cleanup c w
  = Ok tt (set_hookState (delete c)
             (set_subscribedComponents (filter (λ fn, fn ≠ c)) w)).
Proof. reflexivity. Qed.

Lemma Radio_onChange_valid (id value : string) (w : World) :
  value = "default" ∨ value = "alwaysOn" ∨ value = "alwaysOff" →
  Radio_onChange id value w = setExperimentalFeature id value w.
Proof.
  intros Hvalue. unfold Radio_onChange.
  destruct Hvalue as [->| [->| ->]]; reflexivity.
Qed.

Lemma Radio_onChange_invalid (id value : string) (w : World) :
  value ≠ "default" → value ≠ "alwaysOn" → value ≠ "alwaysOff" →
  Radio_onChange id value w = Throw (InvalidRadioValue value) w.
Proof.
  intros H1 H2 H3. unfold Radio_onChange.
  by rewrite !bool_decide_eq_false_2.
Qed.

(** *** Invariants of the reachable states *)

Lemma resolution_within_catalog (w : World) (id : string) :
  experimentalFeaturesList !! id = None → resolution w !! id = None.
Proof. intros H. by rewrite resolution_lookup, H. Qed.

Lemma invariant_initial (w : World) : initial w → invariant w.
Proof.
  intros [Hsubs Hhooks]. unfold invariant, subscribers_mounted, hooks_within_catalog.
  rewrite Hsubs, Hhooks. split_and!.
  - constructor.
  - intros c Hc. by apply not_elem_of_nil in Hc.
  - intros c settings id Hc. by rewrite lookup_empty in Hc.
Qed.

Lemma invariant_mount (c : nat) (w : World) :
  hookState w !! c = None → invariant w → invariant (mount_world c w).
Proof.
  intros Hc (Hnd & Hsub & Hcat). split_and!.
  - cbn [mount_world set_subscribedComponents set_hookState subscribedComponents].
    apply NoDup_app. split_and!; [done| |apply NoDup_singleton].
    intros c' Hin ->%list_elem_of_singleton.
    destruct (Hsub _ Hin) as [? Hsome]. congruence.
  - intros c'. cbn [mount_world set_subscribedComponents set_hookState
                    subscribedComponents hookState].
    intros [Hin| ->%list_elem_of_singleton]%elem_of_app.
    + destruct (decide (c = c')) as [->|Hne].
      * rewrite lookup_insert_eq. eauto.
      * rewrite lookup_insert_ne by done. by apply Hsub.
    + rewrite lookup_insert_eq. eauto.
  - intros c' settings id. cbn [mount_world set_subscribedComponents set_hookState hookState].
    destruct (decide (c = c')) as [->|Hne].
    + rewrite lookup_insert_eq. intros [= <-]. apply resolution_within_catalog.
    + rewrite lookup_insert_ne by done. apply Hcat.
Qed.

Lemma invariant_cleanup (c : nat) (w : World) :
  invariant w →
  invariant (set_hookState (delete c)
               (set_subscribedComponents (filter (λ fn, fn ≠ c)) w)).
Proof.
  intros (Hnd & Hsub & Hcat). split_and!.
  - cbn. by apply NoDup_filter.
  - intros c'. cbn. intros [Hne Hin]%list_elem_of_filter.
    rewrite lookup_delete_ne by done. by apply Hsub.
  - intros c' settings id. cbn. intros Hc'%lookup_delete_Some. destruct Hc' as [_ Hc'].
    by apply (Hcat c').
Qed.

Lemma invariant_set_world (id value : string) (l : LoggerState) (w : World) :
  invariant w → invariant (set_world id value l w).
Proof.
  intros (Hnd & Hsub & Hcat). split_and!.
  - by rewrite set_world_subscribedComponents.
  - intros c. rewrite set_world_subscribedComponents, set_world_hookState.
    intros Hin. rewrite bool_decide_eq_true_2 by done. eauto.
  - intros c settings id'. rewrite set_world_hookState.
    case_bool_decide.
    + intros [= <-]. apply resolution_within_catalog.
    + apply Hcat.
Qed.

Lemma invariant_setExperimentalFeature (id value : string) (w : World) :
  invariant w → invariant (world_of (setExperimentalFeature id value w)).
Proof.
  intros Hinv. rewrite setExperimentalFeature_run. cbn zeta.
  destruct (logger _ _) as [[] l]; cbn [world_of].
  - by apply invariant_set_world.
  - exact Hinv.
Qed.

Lemma invariant_step (w w' : World) : step w w' → invariant w → invariant w'.
Proof.
  intros Hstep Hinv. destruct Hstep as [c id w|c w|id w|id value w|id value w|f w].
  - rewrite useExperimentalFeature_run.
    destruct (hookState w !! c) as [settings|] eqn:Hc; cbn [world_of]; [done|].
    by apply invariant_mount.
  - rewrite cleanup_run. cbn [world_of]. by apply invariant_cleanup.
  - by rewrite getExperimentalFeature_run.
  - by apply invariant_setExperimentalFeature.
  - unfold Radio_onChange. destruct (_ && _); [done|].
    by apply invariant_setExperimentalFeature.
  - exact Hinv.
Qed.

Lemma reachable_invariant (w : World) : reachable w → invariant w.
Proof.
  induction 1 as [w Hinit|w w' _ IH Hstep].
  - by apply invariant_initial.
  - by apply (invariant_step w w').
Qed.

(** *** Resolution *)

(** C3. For every id of the catalog the resolution gives: when the stored
    entry of the id is "alwaysOn", enabled and manually set; when it is
    "alwaysOff", disabled and manually set, both whatever the environment
    mode; in every other case (no entry, or any other value) not manually
    set and enabled as [productionDefault] says when NODE_ENV is
    "production" and as [developmentDefault] says otherwise. *)
Theorem resolution_of_a_catalog_feature
    (id : string) (feature : FeatureDescription) (w : World) :
  experimentalFeaturesList !! id = Some feature →
  ∃ settings,
    getExperimentalFeatureSettings w = Ok settings w
    ∧ (stored_entry w id = Some (JStr "alwaysOn") →
       settings !! id = Some {| enabled := true; manuallySet := true |})
    ∧ (stored_entry w id = Some (JStr "alwaysOff") →
       settings !! id = Some {| enabled := false; manuallySet := true |})
    ∧ (stored_entry w id ≠ Some (JStr "alwaysOn") →
       stored_entry w id ≠ Some (JStr "alwaysOff") →
       settings !! id
       = Some {| enabled := if bool_decide (NODE_ENV = Some "production")
                            then productionDefault feature
                            else developmentDefault feature;
                 manuallySet := false |}).
Proof.
  intros Hid. exists (resolution w). split; [apply getExperimentalFeatureSettings_run|].
  rewrite resolution_lookup, Hid. cbn [fmap option_fmap option_map]. split_and!.
  - by intros ->.
  - by intros ->.
  - intros Hon Hoff. by rewrite resolved_no_override, feature_field_default.
Qed.

(** *** Persisted values that are not override maps *)





(** *** Ids that are not in the catalog *)

(** C8. For an id that is not in the catalog, whatever is persisted,
    [getExperimentalFeature] and [useExperimentalFeature] (in any component
    of any reachable state, on its first render as on later ones) return
    [false] when the id is not the name of a member of [Object.prototype];
    when it is ("constructor", "toString", "__proto__", ...) they return
    [undefined] and not [false]: the test [!settings[id]] finds the inherited
    member. *)
Theorem unknown_feature_reads_false_unless_inherited (id : string) :
  experimentalFeaturesList !! id = None →
  let result := if inherited id then undefined else Some (JBool false) in
  (∀ w, getExperimentalFeature id w = Ok result w)
  ∧ (∀ w c, reachable w → ∃ w', useExperimentalFeature c id w = Ok result w').
Proof.
  intros Hid. cbn zeta. split.
  - intros w. rewrite getExperimentalFeature_run. unfold lookup_enabled.
    by rewrite resolution_within_catalog.
  - intros w c (_ & _ & Hcat)%reachable_invariant.
    rewrite useExperimentalFeature_run. unfold lookup_enabled.
    destruct (hookState w !! c) as [settings|] eqn:Hc.
    + exists w. by rewrite (Hcat c settings id).
    + exists (mount_world c w). by rewrite resolution_within_catalog.
Qed.

(** *** The write entry point *)

Lemma assign_lookup_ne (id id' : string) (v : json) (m : gmap string json) :
  id' ≠ id → assign id v m !! id' = m !! id'.
Proof.
  intros Hne. unfold assign.
  destruct (m !! id), (bool_decide (id = "__proto__"));
    try reflexivity; by rewrite lookup_insert_ne.
Qed.

Lemma assign_insert (id : string) (v : json) (m : gmap string json) :
  id ≠ "__proto__" → assign id v m = <[id := v]> m.
Proof.
  intros Hid. unfold assign. rewrite bool_decide_eq_false_2 by done.
  by destruct (m !! id).
Qed.

Lemma assign_idemp (id : string) (v : json) (m : gmap string json) :
  assign id v (assign id v m) = assign id v m.
Proof.
  unfold assign. destruct (m !! id) eqn:Hm.
  - by rewrite lookup_insert_eq, insert_insert_eq.
  - destruct (bool_decide (id = "__proto__")).
    + by rewrite Hm.
    + by rewrite lookup_insert_eq, insert_insert_eq.
Qed.

Lemma assign_lookup_depends (id : string) (v : json) (m m' : gmap string json) :
  m !! id = m' !! id → assign id v m !! id = assign id v m' !! id.
Proof.
  intros Hm. unfold assign. rewrite <- Hm.
  destruct (m !! id) eqn:Hid.
  - by rewrite !lookup_insert_eq.
  - case_bool_decide; [congruence|by rewrite !lookup_insert_eq].
Qed.

Lemma written_entry (id value : string) (stored : JS.value) :
  value ≠ "default" → id ≠ "__proto__" →
  written id value stored !! id = Some (JStr value).
Proof.
  intros Hv Hid. unfold written. rewrite bool_decide_eq_false_2 by done.
  rewrite assign_insert by done. apply lookup_insert_eq.
Qed.

Lemma written_self (id value : string) (stored : JS.value) :
  id ≠ "__proto__" →
  written id value stored !! id
  = if bool_decide (value = "default") then None else Some (JStr value).
Proof.
  intros Hid. unfold written. case_bool_decide.
  - apply lookup_delete_eq.
  - rewrite assign_insert by done. apply lookup_insert_eq.
Qed.

(** Whatever the id, the entry written for it is the value or none. *)
Lemma written_self_cases (id value : string) (stored : JS.value) :
  written id value stored !! id = None
  ∨ (value ≠ "default" ∧ written id value stored !! id = Some (JStr value)).
Proof.
  unfold written, assign. case_bool_decide as Hv.
  - left. apply lookup_delete_eq.
  - destruct (spread stored !! id) eqn:Hid.
    + right. by rewrite lookup_insert_eq.
    + case_bool_decide; [by left|right; by rewrite lookup_insert_eq].
Qed.

Lemma written_self_depends (id value : string) (stored stored' : JS.value) :
  spread stored !! id = spread stored' !! id →
  written id value stored !! id = written id value stored' !! id.
Proof.
  intros Hid. unfold written. case_bool_decide.
  - by rewrite !lookup_delete_eq.
  - by apply assign_lookup_depends.
Qed.

Lemma written_default (id : string) (stored : JS.value) :
  written id "default" stored !! id = None.
Proof. unfold written. cbn. apply lookup_delete_eq. Qed.

Lemma written_other (id value id' : string) (stored : JS.value) :
  id' ≠ id → written id value stored !! id' = spread stored !! id'.
Proof.
  intros Hne. unfold written. case_bool_decide.
  - by rewrite lookup_delete_ne.
  - by rewrite assign_lookup_ne.
Qed.

Lemma written_idemp (id value : string) (stored : JS.value) :
  written id value (Some (JObj (written id value stored))) = written id value stored.
Proof.
  unfold written. cbn [spread]. case_bool_decide.
  - apply delete_delete_eq.
  - apply assign_idemp.
Qed.

Lemma set_world_stored_entry (id value : string) (l : LoggerState) (w : World)
    (id' : string) :
  stored_entry (set_world id value l w) id'
  = written id value (storage w !! EXPERIMENTAL_FEATURES_STORAGE_KEY) !! id'.
Proof. apply stored_entry_object, set_world_stored. Qed.

(** C1 (as amended). A value other than "default", "alwaysOn" and
    "alwaysOff" is rejected by the radio handler of the settings dialog,
    which throws before it calls [setExperimentalFeature]: the state is
    the one the handler was called in, so nothing is written and nobody is
    notified.  [setExperimentalFeature] itself does not look at the value:
    called with such a value (and the logger returning), it returns
    normally, has persisted the rewritten object, in which the value is the
    entry of the id when the id is not "__proto__", has notified the
    subscribers, and the resolution then treats the id as not manually
    set. *)
Theorem invalid_value_is_rejected_by_the_radio_handler
    (id value : string) (w : World) :
  value ≠ "default" → value ≠ "alwaysOn" → value ≠ "alwaysOff" →
  Radio_onChange id value w = Throw (InvalidRadioValue value) w
  ∧ ∀ l,
      logger {| feature := id; value := value |} (loggerState w) = (Returns, l) →
      ∃ w' newSettings settings,
        setExperimentalFeature id value w = Ok tt w'
        ∧ storage w' !! EXPERIMENTAL_FEATURES_STORAGE_KEY = Some (JObj newSettings)
        ∧ (id ≠ "__proto__" →
           newSettings
           = <[id := JStr value]>
               (spread (storage w !! EXPERIMENTAL_FEATURES_STORAGE_KEY)))
        ∧ notified (new_events w w') = subscribedComponents w
        ∧ getExperimentalFeatureSettings w' = Ok settings w'
        ∧ ∀ feature,
            experimentalFeaturesList !! id = Some feature →
            settings !! id
            = Some {| enabled := if bool_decide (NODE_ENV = Some "production")
                                 then productionDefault feature
                                 else developmentDefault feature;
                      manuallySet := false |}.
Proof.
  intros Hdefault Hon Hoff. split; [by apply Radio_onChange_invalid|].
  intros l Hl.
  exists (set_world id value l w),
    (written id value (storage w !! EXPERIMENTAL_FEATURES_STORAGE_KEY)),
    (resolution (set_world id value l w)).
  split_and!.
  - by apply setExperimentalFeature_returns.
  - apply set_world_stored.
  - intros Hid. unfold written.
    by rewrite bool_decide_eq_false_2, assign_insert.
  - apply set_world_notified.
  - apply getExperimentalFeatureSettings_run.
  - intros feature Hid. rewrite resolution_lookup, Hid.
    cbn [fmap option_fmap option_map].
    rewrite set_world_stored_entry.
    rewrite resolved_no_override, feature_field_default; [done| |].
    + destruct (written_self_cases id value
                  (storage w !! EXPERIMENTAL_FEATURES_STORAGE_KEY)) as [->|[_ ->]];
        congruence.
    + destruct (written_self_cases id value
                  (storage w !! EXPERIMENTAL_FEATURES_STORAGE_KEY)) as [->|[_ ->]];
        congruence.
Qed.

(** C2 (as amended). When the event logger throws, the failure reaches
    the caller of [setExperimentalFeature] and the call ends there: the
    persisted data, the subscribers and their states are as before the call,
    and the only thing that happened is the call to the logger.  (The
    logger is called before the write.) *)
Theorem logger_failure_aborts_the_write
    (id value : string) (w : World) (l : LoggerState) :
  logger {| feature := id; value := value |} (loggerState w) = (Throws, l) →
  ∃ w',
    setExperimentalFeature id value w = Throw LoggerError w'
    ∧ storage w' = storage w
    ∧ subscribedComponents w' = subscribedComponents w
    ∧ hookState w' = hookState w
    ∧ new_events w w' = [EvLogger {| feature := id; value := value |}].
Proof.
  intros Hl. eexists. split; [by apply setExperimentalFeature_throws|].
  split_and!; try reflexivity.
  by apply new_events_app.
Qed.

(** C4 (as amended). Round trip, for an id of the catalog other than
    "__proto__" and any persisted value, when the logger returns from both
    calls: after [setExperimentalFeature id "alwaysOn"] the resolution gives
    enabled and manually set for the id; after a following
    [setExperimentalFeature id "default"] it gives not manually set and
    the default of the environment mode. *)
Theorem override_round_trip
    (id : string) (feature : FeatureDescription) (w : World) (l1 l2 : LoggerState) :
  experimentalFeaturesList !! id = Some feature →
  id ≠ "__proto__" →
  logger {| feature := id; value := "alwaysOn" |} (loggerState w) = (Returns, l1) →
  logger {| feature := id; value := "default" |} l1 = (Returns, l2) →
  ∃ w1 w2 settings1 settings2,
    setExperimentalFeature id "alwaysOn" w = Ok tt w1
    ∧ getExperimentalFeatureSettings w1 = Ok settings1 w1
    ∧ settings1 !! id = Some {| enabled := true; manuallySet := true |}
    ∧ setExperimentalFeature id "default" w1 = Ok tt w2
    ∧ getExperimentalFeatureSettings w2 = Ok settings2 w2
    ∧ settings2 !! id
      = Some {| enabled := if bool_decide (NODE_ENV = Some "production")
                           then productionDefault feature
                           else developmentDefault feature;
                manuallySet := false |}.
Proof.
  intros Hid Hproto Hl1 Hl2.
  set (w1 := set_world id "alwaysOn" l1 w).
  exists w1, (set_world id "default" l2 w1), (resolution w1),
    (resolution (set_world id "default" l2 w1)).
  split_and!.
  - by apply setExperimentalFeature_returns.
  - apply getExperimentalFeatureSettings_run.
  - rewrite resolution_lookup, Hid. unfold w1.
    by rewrite set_world_stored_entry, written_entry.
  - apply setExperimentalFeature_returns. unfold w1.
    by rewrite set_world_loggerState.
  - apply getExperimentalFeatureSettings_run.
  - rewrite resolution_lookup, Hid.
    rewrite set_world_stored_entry, written_default.
    cbn [fmap option_fmap option_map].
    by rewrite resolved_no_override, feature_field_default.
Qed.

(** *** Notification *)

(** C5. In every run of [setExperimentalFeature], returning or throwing,
    a subscriber callback is only invoked after [storage.set] has been
    called with the full rewritten object (the entry of the id set or
    removed, for an id other than "__proto__", every other entry as it
    was): that write precedes the
    invocation in the trace, the value the callback finds in the store is
    the object written, it is still the persisted value when the call
    ends, and the settings the component is left with are what the
    resolution gives for it. *)
Theorem notifications_follow_the_write (id value : string) (w : World) :
  let w' := world_of (setExperimentalFeature id value w) in
  trace w' = (trace w ++ new_events w w')%list
  ∧ ∀ before c seen after,
      new_events w w' = (before ++ EvUpdate c seen :: after)%list →
      ∃ newSettings settings,
        EvStorageSet EXPERIMENTAL_FEATURES_STORAGE_KEY (JObj newSettings) ∈ before
        ∧ (id ≠ "__proto__" →
           newSettings !! id
           = (if bool_decide (value = "default") then None else Some (JStr value)))
        ∧ (∀ id', id' ≠ id →
             newSettings !! id'
             = spread (storage w !! EXPERIMENTAL_FEATURES_STORAGE_KEY) !! id')
        ∧ seen = Some (JObj newSettings)
        ∧ storage w' !! EXPERIMENTAL_FEATURES_STORAGE_KEY = Some (JObj newSettings)
        ∧ getExperimentalFeatureSettings w' = Ok settings w'
        ∧ hookState w' !! c = Some settings.
Proof.
  cbn zeta. rewrite setExperimentalFeature_run. cbn zeta.
  destruct (logger _ _) as [[] l]; cbn [world_of].
  - pose proof (set_world_trace id value l w) as Htrace. cbn zeta in Htrace.
    rewrite (new_events_app _ _ _ Htrace). split; [done|].
    intros before c seen after Hevents.
    destruct before as [|e1 [|e2 before]]; [discriminate Hevents..|].
    injection Hevents as <- <- Hupdates.
    assert (EvUpdate c seen ∈
            (λ c, EvUpdate c (Some (JObj (written id value
               (storage w !! EXPERIMENTAL_FEATURES_STORAGE_KEY)))))
            <$> subscribedComponents w) as Hin.
    { rewrite Hupdates. apply elem_of_app. right. by left. }
    apply list_elem_of_fmap in Hin as (c' & [= -> ->] & Hc').
    exists (written id value (storage w !! EXPERIMENTAL_FEATURES_STORAGE_KEY)),
      (resolution (set_world id value l w)).
    split_and!.
    + right. by left.
    + intros Hid. by apply written_self.
    + intros id' Hne. by apply written_other.
    + done.
    + apply set_world_stored.
    + apply getExperimentalFeatureSettings_run.
    + rewrite set_world_hookState. by rewrite bool_decide_eq_true_2.
  - rewrite (new_events_app _ (logged _ l w) [EvLogger {| feature := id; value := value |}])
      by reflexivity.
    split; [done|].
    intros before c seen after Hevents.
    destruct before as [|e1 [|e2 before]]; discriminate Hevents.
Qed.

Lemma filter_absent (l : list nat) (c : nat) :
  c ∉ l → filter (λ c', c' = c) l = [].
Proof.
  induction l as [|c' l IH]; intros Hnotin; [done|].
  apply not_elem_of_cons in Hnotin as [Hne Hnotin].
  rewrite filter_cons_False by congruence. by apply IH.
Qed.

Lemma NoDup_occurs_once (l : list nat) (c : nat) :
  NoDup l → c ∈ l → length (filter (λ c', c' = c) l) = 1.
Proof.
  induction 1 as [|c' l Hnotin Hnd IH]; intros Hin.
  - by apply not_elem_of_nil in Hin.
  - destruct (decide (c' = c)) as [->|Hne].
    + rewrite filter_cons_True by done. by rewrite filter_absent.
    + rewrite filter_cons_False by done. apply IH.
      apply elem_of_cons in Hin as [?|?]; [congruence|done].
Qed.

(** C6. When the logger returns, [setExperimentalFeature] returns
    normally and, by the time it returns, the callbacks invoked are
    exactly the registered ones, in the order of registration, each
    registration once; in a reachable state every registered callback is
    thus invoked exactly once. *)
Theorem every_subscriber_is_notified_once_in_order
    (id value : string) (w : World) (l : LoggerState) :
  logger {| feature := id; value := value |} (loggerState w) = (Returns, l) →
  ∃ w',
    setExperimentalFeature id value w = Ok tt w'
    ∧ trace w' = (trace w ++ new_events w w')%list
    ∧ notified (new_events w w') = subscribedComponents w
    ∧ (reachable w →
       ∀ c, c ∈ subscribedComponents w →
            length (filter (λ c', c' = c) (notified (new_events w w'))) = 1).
Proof.
  intros Hl. exists (set_world id value l w). split_and!.
  - by apply setExperimentalFeature_returns.
  - pose proof (set_world_trace id value l w) as Htrace. cbn zeta in Htrace.
    by rewrite (new_events_app _ _ _ Htrace).
  - apply set_world_notified.
  - intros (Hnd & _)%reachable_invariant c Hc.
    rewrite set_world_notified. by apply NoDup_occurs_once.
Qed.

(** *** Idempotence and frame *)

(** C9. Calling [setExperimentalFeature id "alwaysOff"] twice in a row
    leaves the same persisted data as calling it once, and the resolution
    gives the same settings, whatever was persisted before and whatever
    the logger does. *)
Theorem setExperimentalFeature_alwaysOff_idempotent (id : string) (w : World) :
  let once := world_of (setExperimentalFeature id "alwaysOff" w) in
  let twice :=
    world_of ((setExperimentalFeature id "alwaysOff" ;;
               setExperimentalFeature id "alwaysOff") w) in
  storage twice = storage once
  ∧ ∃ settings,
      getExperimentalFeatureSettings once = Ok settings once
      ∧ getExperimentalFeatureSettings twice = Ok settings twice.
Proof.
  cbn zeta.
  assert (storage (world_of ((setExperimentalFeature id "alwaysOff" ;;
                              setExperimentalFeature id "alwaysOff") w))
          = storage (world_of (setExperimentalFeature id "alwaysOff" w))) as Hstorage.
  { rewrite run_bind, (setExperimentalFeature_run id "alwaysOff" w). cbn zeta.
    destruct (logger _ (loggerState w)) as [[] l1]; [|reflexivity].
    rewrite setExperimentalFeature_run. cbn zeta.
    destruct (logger _ _) as [[] l2]; cbn [world_of]; [|reflexivity].
    rewrite (set_world_storage id "alwaysOff" l2), set_world_stored.
    rewrite set_world_storage, insert_insert_eq. do 2 f_equal.
    apply written_idemp. }
  split; [exact Hstorage|].
  exists (resolution (world_of (setExperimentalFeature id "alwaysOff" w))).
  split; [apply getExperimentalFeatureSettings_run|].
  rewrite getExperimentalFeatureSettings_run. f_equal.
  apply resolution_storage. by rewrite Hstorage.
Qed.

(** C10. [setExperimentalFeature id value] carries the entry of every
    other id over unchanged, whether or not the id is in the catalog: an
    own property of the persisted value is an entry of the rewritten
    object with the same value, and an id without one gets none. *)
Theorem other_entries_are_carried_over (id value id' : string) (w : World) :
  id' ≠ id →
  let w' := world_of (setExperimentalFeature id value w) in
  spread (storage w' !! EXPERIMENTAL_FEATURES_STORAGE_KEY) !! id'
  = spread (storage w !! EXPERIMENTAL_FEATURES_STORAGE_KEY) !! id'
  ∧ ∀ l,
      logger {| feature := id; value := value |} (loggerState w) = (Returns, l) →
      ∃ newSettings,
        storage w' !! EXPERIMENTAL_FEATURES_STORAGE_KEY = Some (JObj newSettings)
        ∧ newSettings !! id'
          = spread (storage w !! EXPERIMENTAL_FEATURES_STORAGE_KEY) !! id'.
Proof.
  intros Hne. cbn zeta. rewrite setExperimentalFeature_run. cbn zeta.
  destruct (logger _ _) as [[] l]; cbn [world_of].
  - rewrite set_world_stored. cbn [spread]. split; [by apply written_other|].
    intros _ _. eexists. split; [reflexivity|by apply written_other].
  - split; [reflexivity|]. intros l' [=].
Qed.

End Properties.

(** ** Further properties of the entry points *)

Section Composition.

Context `{hooks : GlobalHooks}.

(** X1. The settings object has an entry for each id of the catalog and
    for no other id, whatever is persisted: entries persisted for ids the
    catalog does not have never show up. *)
Theorem settings_have_exactly_the_catalog_ids (w : World) :
  ∃ settings,
    getExperimentalFeatureSettings w = Ok settings w
    ∧ dom settings = dom experimentalFeaturesList.
Proof.
  exists (resolution w). split; [apply getExperimentalFeatureSettings_run|].
  apply set_eq. intros id.
  by rewrite !elem_of_dom, resolution_lookup, fmap_is_Some.
Qed.

(** X2. [setExperimentalFeature] writes under its own storage key only:
    what is persisted under any other key is as before the call, and so is
    the list of subscribed callbacks, whether the call returns or throws. *)
Theorem setExperimentalFeature_writes_its_key_only
    (id value key : string) (w : World) :
  key ≠ EXPERIMENTAL_FEATURES_STORAGE_KEY →
  let w' := world_of (setExperimentalFeature id value w) in
  storage w' !! key = storage w !! key
  ∧ subscribedComponents w' = subscribedComponents w.
Proof.
  intros Hkey. cbn zeta. rewrite setExperimentalFeature_run. cbn zeta.
  destruct (logger _ _) as [[] l]; cbn [world_of]; [|done].
  rewrite set_world_storage, set_world_subscribedComponents.
  by rewrite lookup_insert_ne.
Qed.

(** X3. What one call of [setExperimentalFeature] does, and in what
    order: it calls the logger once, with the id and the value; if the
    logger throws, that is all; otherwise it writes once, under the storage
    key, and then invokes the callback of each subscriber once, in the order
    of the list, each finding the written object in the store. *)
Theorem setExperimentalFeature_effects_in_order (id value : string) (w : World) :
  let w' := world_of (setExperimentalFeature id value w) in
  let ev := {| feature := id; value := value |} in
  trace w' = (trace w ++ new_events w w')%list
  ∧ ((∃ l, logger ev (loggerState w) = (Throws, l)
           ∧ new_events w w' = [EvLogger ev])
     ∨ (∃ l newSettings,
           logger ev (loggerState w) = (Returns, l)
           ∧ new_events w w'
             = EvLogger ev
               :: EvStorageSet EXPERIMENTAL_FEATURES_STORAGE_KEY (JObj newSettings)
               :: ((λ c, EvUpdate c (Some (JObj newSettings)))
                     <$> subscribedComponents w))).
Proof.
  cbn zeta. rewrite setExperimentalFeature_run. cbn zeta.
  destruct (logger _ _) as [[] l] eqn:Hl; cbn [world_of].
  - pose proof (set_world_trace id value l w) as Htrace. cbn zeta in Htrace.
    rewrite (new_events_app _ _ _ Htrace). split; [done|]. right. eauto.
  - rewrite (new_events_app _ (logged _ l w) [EvLogger {| feature := id; value := value |}])
      by reflexivity.
    split; [done|]. left. eauto.
Qed.

(** X4. When the logger returns, resetting to "default" a feature that
    has no persisted entry keeps every entry (and persists an empty object
    when nothing usable was persisted), and the subscribers are notified all
    the same. *)
Theorem resetting_a_feature_without_entry (id : string) (w : World) (l : LoggerState) :
  spread (storage w !! EXPERIMENTAL_FEATURES_STORAGE_KEY) !! id = None →
  logger {| feature := id; value := "default" |} (loggerState w) = (Returns, l) →
  ∃ w',
    setExperimentalFeature id "default" w = Ok tt w'
    ∧ storage w' !! EXPERIMENTAL_FEATURES_STORAGE_KEY
      = Some (JObj (spread (storage w !! EXPERIMENTAL_FEATURES_STORAGE_KEY)))
    ∧ notified (new_events w w') = subscribedComponents w.
Proof.
  intros Hid Hl. exists (set_world id "default" l w). split_and!.
  - by apply setExperimentalFeature_returns.
  - rewrite set_world_stored. unfold written. cbn. by rewrite delete_id.
  - apply set_world_notified.
Qed.

(** X5. The last write wins: after two returning calls for the same id,
    the persisted object is the one a single call with the second value
    would write: for an id other than "__proto__" the entry of the id is the
    second value (none if it is "default"), and every other entry is as
    before the first call. *)
Theorem last_write_wins (id value1 value2 : string) (w : World) (l1 l2 : LoggerState) :
  logger {| feature := id; value := value1 |} (loggerState w) = (Returns, l1) →
  logger {| feature := id; value := value2 |} l1 = (Returns, l2) →
  ∃ w1 w2 newSettings,
    setExperimentalFeature id value1 w = Ok tt w1
    ∧ setExperimentalFeature id value2 w1 = Ok tt w2
    ∧ storage w2 !! EXPERIMENTAL_FEATURES_STORAGE_KEY = Some (JObj newSettings)
    ∧ (id ≠ "__proto__" →
       newSettings !! id
       = (if bool_decide (value2 = "default") then None else Some (JStr value2)))
    ∧ ∀ id', id' ≠ id →
        newSettings !! id'
        = spread (storage w !! EXPERIMENTAL_FEATURES_STORAGE_KEY) !! id'.
Proof.
  intros Hl1 Hl2. set (w1 := set_world id value1 l1 w).
  exists w1, (set_world id value2 l2 w1),
    (written id value2 (storage w1 !! EXPERIMENTAL_FEATURES_STORAGE_KEY)).
  split_and!.
  - by apply setExperimentalFeature_returns.
  - apply setExperimentalFeature_returns. unfold w1.
    by rewrite set_world_loggerState.
  - apply set_world_stored.
  - intros Hid. by apply written_self.
  - intros id' Hne. rewrite written_other by done.
    unfold w1. rewrite set_world_stored. cbn [spread]. by apply written_other.
Qed.

Lemma written_commute (id1 value1 id2 value2 : string) (stored : JS.value) :
  id1 ≠ id2 →
  written id2 value2 (Some (JObj (written id1 value1 stored)))
  = written id1 value1 (Some (JObj (written id2 value2 stored))).
Proof.
  intros Hne. apply map_eq. intros id.
  destruct (decide (id = id1)) as [->|Hne1]; [|destruct (decide (id = id2)) as [->|Hne2]].
  - rewrite (written_other id2 value2 id1) by done. cbn [spread].
    apply written_self_depends. cbn [spread]. by rewrite written_other.
  - rewrite (written_other id1 value1 id2) by done. cbn [spread].
    symmetry. apply written_self_depends. cbn [spread]. by rewrite written_other.
  - rewrite (written_other id2), (written_other id1 value1 id) by done.
    cbn [spread]. by rewrite !written_other.
Qed.

Lemma setExperimentalFeature_quiet (id value : string) (w : World) :
  (∀ ev l, (logger ev l).1 = Returns) →
  setExperimentalFeature id value w
  = Ok tt (set_world id value
             (logger {| feature := id; value := value |} (loggerState w)).2 w).
Proof.
  intros Hquiet. apply setExperimentalFeature_returns.
  specialize (Hquiet {| feature := id; value := value |} (loggerState w)).
  destruct (logger _ _) as [outcome l]. cbn in *. by subst.
Qed.

(** X6. Writes for different ids commute: with a logger that does not
    throw, two calls for two different ids persist the same data in either
    order. *)
Theorem writes_for_different_ids_commute
    (id1 value1 id2 value2 : string) (w : World) :
  id1 ≠ id2 →
  (∀ ev l, (logger ev l).1 = Returns) →
  storage (world_of ((setExperimentalFeature id1 value1 ;;
                      setExperimentalFeature id2 value2) w))
  = storage (world_of ((setExperimentalFeature id2 value2 ;;
                        setExperimentalFeature id1 value1) w)).
Proof.
  intros Hne Hquiet.
  rewrite !run_bind, (setExperimentalFeature_quiet id1 value1 w) by done.
  rewrite (setExperimentalFeature_quiet id2 value2 w) by done.
  rewrite !setExperimentalFeature_quiet by done. cbn [world_of].
  rewrite !set_world_storage, !lookup_insert_eq, !insert_insert_eq.
  by rewrite written_commute.
Qed.

(** *** Subscribing, unsubscribing and being notified *)

(** X7. Once the cleanup of a component has run, a write no longer
    reaches it: the callbacks invoked are the remaining ones, in their
    order, and the component has no settings. *)
Theorem unmounted_component_is_not_notified
    (c : nat) (id value : string) (w : World) (l : LoggerState) :
  logger {| feature := id; value := value |} (loggerState w) = (Returns, l) →
  let w1 := world_of (cleanup c w) in
  ∃ w2,
    setExperimentalFeature id value w1 = Ok tt w2
    ∧ notified (new_events w1 w2)
      = filter (λ fn, fn ≠ c) (subscribedComponents w)
    ∧ (c ∉ notified (new_events w1 w2))
    ∧ hookState w2 !! c = None.
Proof.
  intros Hl. cbn zeta. rewrite cleanup_run. cbn [world_of].
  eexists. split; [by apply setExperimentalFeature_returns|].
  rewrite set_world_notified. cbn [set_hookState set_subscribedComponents subscribedComponents].
  split_and!.
  - done.
  - by intros [? _]%list_elem_of_filter.
  - rewrite set_world_hookState.
    cbn [set_hookState set_subscribedComponents subscribedComponents hookState].
    rewrite bool_decide_eq_false_2 by (by intros [? _]%list_elem_of_filter).
    apply lookup_delete_eq.
Qed.

Lemma filter_other_idemp (c : nat) (l : list nat) :
  filter (λ fn, fn ≠ c) (filter (λ fn, fn ≠ c) l) = filter (λ fn, fn ≠ c) l.
Proof.
  induction l as [|c' l IH]; [done|].
  destruct (decide (c' = c)) as [->|Hne].
  - by rewrite filter_cons_False by (by intros ?).
  - rewrite filter_cons_True by done. rewrite filter_cons_True by done.
    by rewrite IH.
Qed.

Lemma filter_other_absent (c : nat) (l : list nat) :
  c ∉ l → filter (λ fn, fn ≠ c) l = l.
Proof.
  induction l as [|c' l IH]; intros Hnotin; [done|].
  apply not_elem_of_cons in Hnotin as [Hne Hnotin].
  rewrite filter_cons_True by congruence. by rewrite IH.
Qed.

(** X8. Running the cleanup of a component a second time changes
    nothing, and the cleanup of a component whose callback is not in the
    list leaves the list as it is. *)
Theorem cleanup_is_idempotent (c : nat) (w : World) :
  world_of ((cleanup c ;; cleanup c) w) = world_of (cleanup c w)
  ∧ (c ∉ subscribedComponents w →
     subscribedComponents (world_of (cleanup c w)) = subscribedComponents w).
Proof.
  split.
  - rewrite run_bind, !cleanup_run. cbn [world_of].
    unfold set_hookState, set_subscribedComponents.
    cbn [storage subscribedComponents hookState loggerState trace].
    by rewrite filter_other_idemp, delete_delete_eq.
  - intros Hc. rewrite cleanup_run. cbn. by apply filter_other_absent.
Qed.

(** X9. The first render of a component returns what
    [getExperimentalFeature] returns in that state and appends the
    component's callback to the list, once; it writes nothing and calls
    nobody.  Rendering again returns the same value and changes nothing. *)
Theorem first_render_subscribes (c : nat) (id : string) (w : World) :
  hookState w !! c = None →
  ∃ b w',
    useExperimentalFeature c id w = Ok b w'
    ∧ getExperimentalFeature id w = Ok b w
    ∧ subscribedComponents w' = (subscribedComponents w ++ [c])%list
    ∧ storage w' = storage w
    ∧ trace w' = trace w
    ∧ useExperimentalFeature c id w' = Ok b w'.
Proof.
  intros Hc. exists (lookup_enabled (resolution w) id), (mount_world c w).
  split_and!; try reflexivity.
  - by rewrite useExperimentalFeature_run, Hc.
  - apply getExperimentalFeature_run.
  - rewrite useExperimentalFeature_run.
    cbn [mount_world set_subscribedComponents set_hookState hookState].
    by rewrite lookup_insert_eq.
Qed.

(** X10. After a write has returned, every subscribed component reads,
    for every id, what [getExperimentalFeature] reads. *)
Theorem subscribers_agree_with_getExperimentalFeature
    (id value id' : string) (c : nat) (w : World) (l : LoggerState) :
  logger {| feature := id; value := value |} (loggerState w) = (Returns, l) →
  c ∈ subscribedComponents w →
  ∃ w' b,
    setExperimentalFeature id value w = Ok tt w'
    ∧ useExperimentalFeature c id' w' = Ok b w'
    ∧ getExperimentalFeature id' w' = Ok b w'.
Proof.
  intros Hl Hc.
  exists (set_world id value l w),
    (lookup_enabled (resolution (set_world id value l w)) id').
  split_and!.
  - by apply setExperimentalFeature_returns.
  - rewrite useExperimentalFeature_run, set_world_hookState.
    by rewrite bool_decide_eq_true_2.
  - apply getExperimentalFeature_run.
Qed.

Lemma setExperimentalFeature_hookState
    (id value : string) (c : nat) (settings : FeatureSettings) (w : World) :
  hookState w !! c = Some settings →
  let r := setExperimentalFeature id value w in
  (r = Ok tt (world_of r) ∧ c ∈ subscribedComponents w
   ∧ c ∈ notified (new_events w (world_of r))
   ∧ ∃ settings', getExperimentalFeatureSettings (world_of r) = Ok settings' (world_of r)
                  ∧ hookState (world_of r) !! c = Some settings')
  ∨ ((r ≠ Ok tt (world_of r) ∨ c ∉ subscribedComponents w)
     ∧ (c ∉ notified (new_events w (world_of r)))
     ∧ hookState (world_of r) !! c = Some settings).
Proof.
  intros Hc. cbn zeta. rewrite setExperimentalFeature_run. cbn zeta.
  destruct (logger _ _) as [[] l]; cbn [world_of].
  - rewrite set_world_hookState, set_world_notified.
    destruct (decide (c ∈ subscribedComponents w)) as [Hin|Hin].
    + left. rewrite bool_decide_eq_true_2 by done. split_and!; [done..|].
      eexists. split; [apply getExperimentalFeatureSettings_run|done].
    + right. rewrite bool_decide_eq_false_2 by done. split_and!; [by right|done..].
  - right. split_and!; [by left| |done].
    rewrite (new_events_app _ (logged _ l w) [EvLogger {| feature := id; value := value |}])
      by reflexivity.
    cbn. apply not_elem_of_nil.
Qed.

(** X11. The settings a mounted component holds change only when its
    callback is invoked or the component unmounts.  A render of any
    component, a call of [getExperimentalFeature], a change of the persisted
    data made from outside and the cleanup of another component leave them
    as they are.  A call of [setExperimentalFeature] either returns with
    the component subscribed, and then its callback was invoked and its
    settings are what [getExperimentalFeatureSettings] returns after the
    call; or it throws or the component is not subscribed, and then its
    callback was not invoked and its settings are as they were. *)
Theorem settings_change_only_when_notified
    (c : nat) (settings : FeatureSettings) (w : World) :
  hookState w !! c = Some settings →
  (∀ c' id, hookState (world_of (useExperimentalFeature c' id w)) !! c = Some settings)
  ∧ (∀ id, hookState (world_of (getExperimentalFeature id w)) !! c = Some settings)
  ∧ (∀ f, hookState (set_storage f w) !! c = Some settings)
  ∧ (∀ c', c' ≠ c → hookState (world_of (cleanup c' w)) !! c = Some settings)
  ∧ (∀ id value,
       let r := setExperimentalFeature id value w in
       (r = Ok tt (world_of r) ∧ c ∈ subscribedComponents w
        ∧ c ∈ notified (new_events w (world_of r))
        ∧ ∃ settings',
            getExperimentalFeatureSettings (world_of r) = Ok settings' (world_of r)
            ∧ hookState (world_of r) !! c = Some settings')
       ∨ ((r ≠ Ok tt (world_of r) ∨ c ∉ subscribedComponents w)
          ∧ (c ∉ notified (new_events w (world_of r)))
          ∧ hookState (world_of r) !! c = Some settings)).
Proof.
  intros Hc. split_and!.
  - intros c' id. rewrite useExperimentalFeature_run.
    destruct (hookState w !! c') as [?|] eqn:Hc'; cbn [world_of]; [done|].
    cbn [mount_world set_subscribedComponents set_hookState hookState].
    rewrite lookup_insert_ne; [done|congruence].
  - intros id. by rewrite getExperimentalFeature_run.
  - done.
  - intros c' Hne. rewrite cleanup_run.
    cbn [world_of set_hookState set_subscribedComponents hookState].
    by rewrite lookup_delete_ne.
  - intros id value. by apply setExperimentalFeature_hookState.
Qed.

(** *** What holds in every reachable state *)

Lemma resolution_dom (w : World) : dom (resolution w) = dom experimentalFeaturesList.
Proof.
  apply set_eq. intros id.
  by rewrite !elem_of_dom, resolution_lookup, fmap_is_Some.
Qed.

Lemma registry_step (w w' : World) :
  step w w' →
  registry_is_mounted w ∧ hooks_are_resolutions w →
  registry_is_mounted w' ∧ hooks_are_resolutions w'.
Proof.
  unfold registry_is_mounted, hooks_are_resolutions.
  intros Hstep [Hreg Hres].
  assert (∀ id value,
    registry_is_mounted (world_of (setExperimentalFeature id value w))
    ∧ hooks_are_resolutions (world_of (setExperimentalFeature id value w))) as Hset.
  { unfold registry_is_mounted, hooks_are_resolutions.
    intros id value. rewrite setExperimentalFeature_run. cbn zeta.
    destruct (logger _ _) as [[] l]; cbn [world_of]; [|done]. split.
    - intros c. rewrite set_world_subscribedComponents, set_world_hookState.
      case_bool_decide as Hc; [|apply Hreg]. split; [eauto|done].
    - intros c settings. rewrite set_world_hookState.
      case_bool_decide; [|apply Hres]. intros [= <-]. eauto. }
  destruct Hstep as [c0 id w|c0 w|id w|id value w|id value w|f w].
  - rewrite useExperimentalFeature_run.
    destruct (hookState w !! c0) as [?|] eqn:Hc0; cbn [world_of]; [done|]. split.
    + intros c. cbn [mount_world set_subscribedComponents set_hookState
                     subscribedComponents hookState].
      rewrite elem_of_app, list_elem_of_singleton, Hreg.
      destruct (decide (c0 = c)) as [->|Hne].
      * rewrite lookup_insert_eq. split; [eauto|auto].
      * rewrite lookup_insert_ne by done. split; [|auto].
        intros [?| ->]; [done|congruence].
    + intros c settings. cbn [mount_world set_subscribedComponents set_hookState hookState].
      destruct (decide (c0 = c)) as [->|Hne].
      * rewrite lookup_insert_eq. intros [= <-]. eauto.
      * rewrite lookup_insert_ne by done. apply Hres.
  - rewrite cleanup_run. cbn [world_of]. split.
    + intros c. cbn [set_hookState set_subscribedComponents subscribedComponents hookState].
      rewrite list_elem_of_filter, Hreg.
      destruct (decide (c0 = c)) as [->|Hne].
      * rewrite lookup_delete_eq. split; [by intros [? _]|by intros [? [=]]].
      * rewrite lookup_delete_ne by done. split; [by intros [_ ?]|by split; [congruence|]].
    + intros c settings. cbn [set_hookState set_subscribedComponents hookState].
      intros [_ ?]%lookup_delete_Some. by apply (Hres c).
  - by rewrite getExperimentalFeature_run.
  - apply Hset.
  - unfold Radio_onChange. destruct (_ && _); [done|apply Hset].
  - done.
Qed.

Lemma reachable_registry (w : World) :
  reachable w → registry_is_mounted w ∧ hooks_are_resolutions w.
Proof.
  induction 1 as [w [Hsubs Hhooks]|w w' _ IH Hstep].
  - split.
    + intros c. rewrite Hsubs, Hhooks, lookup_empty. split.
      * by intros ?%not_elem_of_nil.
      * by intros [? [=]].
    + intros c settings. by rewrite Hhooks, lookup_empty.
  - by apply (registry_step w w').
Qed.

(** X12. In every reachable state no callback is in the list twice, the
    callbacks in the list are exactly those of the mounted components (an
    unmounted component leaves none behind), and the settings a mounted
    component holds have an entry for each id of the catalog and no
    other. *)
Theorem registry_holds_the_mounted_components (w : World) :
  reachable w →
  NoDup (subscribedComponents w)
  ∧ (∀ c, c ∈ subscribedComponents w ↔ is_Some (hookState w !! c))
  ∧ (∀ c settings,
       hookState w !! c = Some settings →
       dom settings = dom experimentalFeaturesList).
Proof.
  intros Hw. destruct (reachable_invariant w Hw) as (Hnd & _).
  destruct (reachable_registry w Hw) as [Hreg Hres]. split_and!; [done..|].
  intros c settings Hc. destruct (Hres c settings Hc) as [w0 ->].
  apply resolution_dom.
Qed.

End Composition.

(** ** Properties of the settings dialog *)

Section DialogProperties.

Context `{hooks : GlobalHooks} `{window : Window}.

Lemma useAllExperimentalFeatures_run (c : nat) (w : World) :
  useAllExperimentalFeatures c w =
  match hookState w !! c with
  | Some settings => Ok settings w
  | None => Ok (resolution w) (mount_world c w)
  end.
Proof.
  unfold useAllExperimentalFeatures. rewrite run_bind. cbn [get_world].
  destruct (hookState w !! c) as [settings|]; [reflexivity|].
  rewrite run_bind, getExperimentalFeatureSettings_run. reflexivity.
Qed.

Lemma setting_of_own (settings : FeatureSettings) (id : string) (s : ResolvedFeature) :
  settings !! id = Some s → setting_of settings id = Some s.
Proof. intros Hs. unfold setting_of. by rewrite Hs. Qed.

Lemma setting_of_resolution (w : World) (id : string) (feature : FeatureDescription) :
  experimentalFeaturesList !! id = Some feature →
  setting_of (resolution w) id = Some (resolved (stored_entry w id) feature).
Proof. intros Hid. apply setting_of_own. by rewrite resolution_lookup, Hid. Qed.

Lemma render_row_run (settings : FeatureSettings) (id : string)
    (feature : FeatureDescription) (w : World) :
  render_row settings (id, feature) w =
  match setting_of settings id with
  | Some s => Ok (row_of id feature s) w
  | None => Throw TypeError w
  end.
Proof.
  unfold render_row, get_setting, setting_of. rewrite run_bind.
  destruct (settings !! id); [done|]. by destruct (inherited id).
Qed.

Lemma array_map_render_row_ok (settings : FeatureSettings)
    (l : list (string * FeatureDescription)) (w : World) :
  (∀ e, e ∈ l → is_Some (setting_of settings e.1)) →
  array_map (render_row settings) l w = Ok (rows_of settings l) w.
Proof.
  induction l as [|[id feature] l IH]; intros Hall; [reflexivity|].
  cbn [array_map]. rewrite run_bind, render_row_run.
  destruct (Hall (id, feature)) as [s Hs]; [by left|]. cbn in Hs.
  rewrite Hs, run_bind, IH by (intros e He; apply Hall; by right).
  unfold rows_of. cbn [omap list_omap fst snd]. by rewrite Hs.
Qed.

Lemma array_map_render_row_throws (settings : FeatureSettings)
    (l : list (string * FeatureDescription)) (w : World)
    (id : string) (feature : FeatureDescription) :
  (id, feature) ∈ l → setting_of settings id = None →
  ∃ w', array_map (render_row settings) l w = Throw TypeError w'.
Proof.
  intros Hin Hid. induction l as [|[id' feature'] l IH]; [by apply not_elem_of_nil in Hin|].
  cbn [array_map]. rewrite run_bind, render_row_run.
  destruct (setting_of settings id') as [s|] eqn:Hs; [|eauto].
  apply elem_of_cons in Hin as [[= -> ->]|Hin]; [congruence|].
  destruct (IH Hin) as [w' Hthrows]. rewrite run_bind, Hthrows. eauto.
Qed.

Lemma rows_of_ids (settings : FeatureSettings) (l : list (string * FeatureDescription)) :
  (∀ e, e ∈ l → is_Some (setting_of settings e.1)) →
  row_id <$> rows_of settings l = l.*1.
Proof.
  induction l as [|[id feature] l IH]; intros Hall; [reflexivity|].
  destruct (Hall (id, feature)) as [s Hs]; [by left|]. cbn in Hs.
  unfold rows_of. cbn [omap list_omap fst snd]. rewrite Hs. cbn.
  f_equal. apply IH. intros e He. apply Hall. by right.
Qed.

Lemma rows_of_elem_of (settings : FeatureSettings)
    (l : list (string * FeatureDescription)) (row : FeatureRow) :
  row ∈ rows_of settings l ↔
  ∃ id feature s,
    (id, feature) ∈ l ∧ setting_of settings id = Some s ∧ row = row_of id feature s.
Proof.
  unfold rows_of. rewrite list_elem_of_omap. split.
  - intros ([id feature] & Hin & Hrow). cbn in Hrow.
    destruct (setting_of settings id) as [s|] eqn:Hs; [|discriminate Hrow].
    injection Hrow as <-. eauto 6.
  - intros (id & feature & s & Hin & Hs & ->). exists (id, feature).
    split; [done|]. cbn. by rewrite Hs.
Qed.

Lemma ExperimentalFeaturesModal_run (c : nat) (props : ModalProps)
    (actual : FeatureSettings) (w w' : World) :
  useAllExperimentalFeatures c w = Ok actual w' →
  ExperimentalFeaturesModal c props w =
  let list := default experimentalFeaturesList (listForStories props) in
  match array_map (render_row (default actual (settingsForStories props)))
          (map_to_list list) w' with
  | Ok rows w'' =>
      Ok {| no_features_notice := bool_decide (length (map_to_list list) = 0);
            rows := rows |} w''
  | Throw e _ => Throw e w
  end.
Proof.
  intros Huse. unfold ExperimentalFeaturesModal, render. rewrite run_bind, Huse.
  cbn zeta. rewrite run_bind. unfold getExperimentalFeaturesList.
  by destruct (array_map _ _ _).
Qed.

(** X13. The dialog lists what it is asked to list, and fails on a
    feature whose settings it cannot read.  The settings in use are the
    story settings if given, else the component's own; the list in use is
    the story list if given, else the catalog.  When every id of the list
    has an entry in the settings or is the name of a member of
    [Object.prototype], the dialog renders one row per id of the list.  When
    an id of the list has no entry and is no such name, rendering throws a
    [TypeError], and nothing of the render is kept: the state is the one
    before it. *)
Theorem dialog_needs_settings_for_every_listed_feature
    (c : nat) (props : ModalProps) (w : World) :
  ∃ actual w',
    useAllExperimentalFeatures c w = Ok actual w'
    ∧ let settings := default actual (settingsForStories props) in
      let list := default experimentalFeaturesList (listForStories props) in
      ((∀ id, is_Some (list !! id) →
              is_Some (settings !! id) ∨ inherited id = true) →
       ∃ view, ExperimentalFeaturesModal c props w = Ok view w'
               ∧ row_id <$> rows view = (map_to_list list).*1)
      ∧ (∀ id, is_Some (list !! id) → settings !! id = None → inherited id = false →
         ExperimentalFeaturesModal c props w = Throw TypeError w).
Proof.
  assert (∃ actual w', useAllExperimentalFeatures c w = Ok actual w')
    as (actual & w' & Huse).
  { rewrite useAllExperimentalFeatures_run. destruct (hookState w !! c); eauto. }
  exists actual, w'. split; [done|]. cbn zeta. split.
  - intros Hall.
    assert (∀ e, e ∈ map_to_list (default experimentalFeaturesList (listForStories props)) →
                 is_Some (setting_of (default actual (settingsForStories props)) e.1))
      as Hall'.
    { intros [id feature] Hin%elem_of_map_to_list. cbn. unfold setting_of.
      destruct (Hall id) as [[s Hs]|Hinherited]; [eauto| |].
      + rewrite Hs. eauto.
      + rewrite Hinherited. destruct (default actual _ !! id); eauto. }
    eexists. rewrite (ExperimentalFeaturesModal_run c props actual w w' Huse). cbn zeta.
    rewrite array_map_render_row_ok by done. split; [reflexivity|].
    by apply rows_of_ids.
  - intros id [feature Hfeature] Hnone Hinherited.
    rewrite (ExperimentalFeaturesModal_run c props actual w w' Huse). cbn zeta.
    destruct (array_map_render_row_throws
                (default actual (settingsForStories props))
                (map_to_list (default experimentalFeaturesList (listForStories props)))
                w' id feature) as [w'' ->]; [|  |done].
    + by apply elem_of_map_to_list.
    + unfold setting_of. by rewrite Hnone, Hinherited.
Qed.

Lemma dialog_of_a_reachable_state (c : nat) (w w' : World) (view : ModalView) :
  reachable w →
  ExperimentalFeaturesModal c no_story_props w = Ok view w' →
  ∃ w0,
    hookState w' !! c = Some (resolution w0)
    ∧ c ∈ subscribedComponents w'
    ∧ view = {| no_features_notice :=
                  bool_decide (length (map_to_list experimentalFeaturesList) = 0);
                rows := rows_of (resolution w0) (map_to_list experimentalFeaturesList) |}.
Proof.
  intros [Hreg Hres]%reachable_registry Hview.
  assert (∀ w0 e, e ∈ map_to_list experimentalFeaturesList →
                  is_Some (setting_of (resolution w0) e.1)) as Hall.
  { intros w0 [id feature] Hin%elem_of_map_to_list.
    cbn. erewrite setting_of_resolution by done. eauto. }
  destruct (hookState w !! c) as [settings|] eqn:Hc.
  - destruct (Hres c settings Hc) as [w0 ->].
    rewrite (ExperimentalFeaturesModal_run c _ (resolution w0) w w) in Hview
      by (by rewrite useAllExperimentalFeatures_run, Hc).
    cbn in Hview. rewrite array_map_render_row_ok in Hview by apply Hall.
    injection Hview as <- <-. exists w0. split_and!; [done| |done].
    apply Hreg. eauto.
  - rewrite (ExperimentalFeaturesModal_run c _ (resolution w) w (mount_world c w)) in Hview
      by (by rewrite useAllExperimentalFeatures_run, Hc).
    cbn in Hview. rewrite array_map_render_row_ok in Hview by apply Hall.
    injection Hview as <- <-. exists w. split_and!; [|by apply elem_of_app; right; left|done].
    cbn. apply lookup_insert_eq.
Qed.

(** X14. In every reachable state the dialog, given no story props,
    renders without error and shows one row per feature of the catalog; the
    notice that there are no experimental features is shown exactly when the
    catalog is empty. *)
Theorem dialog_shows_every_catalog_feature (c : nat) (w : World) :
  reachable w →
  ∃ view w',
    ExperimentalFeaturesModal c no_story_props w = Ok view w'
    ∧ row_id <$> rows view = (map_to_list experimentalFeaturesList).*1
    ∧ (no_features_notice view = true ↔ experimentalFeaturesList = ∅).
Proof.
  intros Hw.
  assert (∀ w0 e, e ∈ map_to_list experimentalFeaturesList →
                  is_Some (setting_of (resolution w0) e.1)) as Hall.
  { intros w0 [id feature] Hin%elem_of_map_to_list.
    cbn. erewrite setting_of_resolution by done. eauto. }
  assert (∃ view w', ExperimentalFeaturesModal c no_story_props w = Ok view w')
    as (view & w' & Hview).
  { destruct (reachable_registry w Hw) as [_ Hres].
    destruct (hookState w !! c) as [settings|] eqn:Hc.
    - destruct (Hres c settings Hc) as [w0 ->].
      rewrite (ExperimentalFeaturesModal_run c _ (resolution w0) w w)
        by (by rewrite useAllExperimentalFeatures_run, Hc).
      cbn. rewrite array_map_render_row_ok by apply Hall. eauto.
    - rewrite (ExperimentalFeaturesModal_run c _ (resolution w) w (mount_world c w))
        by (by rewrite useAllExperimentalFeatures_run, Hc).
      cbn. rewrite array_map_render_row_ok by apply Hall. eauto. }
  exists view, w'. split; [done|].
  destruct (dialog_of_a_reachable_state c w w' view Hw Hview) as (w0 & _ & _ & ->).
  cbn [rows no_features_notice]. split; [apply rows_of_ids, Hall|].
  rewrite bool_decide_eq_true, length_zero_iff_nil.
  apply map_to_list_empty_iff.
Qed.

Lemma radio_options_are_valid (feature : FeatureDescription) (opt : RadioOption) :
  opt ∈ radio_options_of feature →
  option_id opt = "default" ∨ option_id opt = "alwaysOn" ∨ option_id opt = "alwaysOff".
Proof.
  unfold radio_options_of. rewrite !elem_of_cons.
  intros [->|[->|[->|Hnil]]]; auto. by apply not_elem_of_nil in Hnil.
Qed.

(** X15. In the dialog rendered without story props, for a feature whose
    id is not "__proto__", choosing an option of the feature's radio group
    selects it: for any option a rendered row offers, the handler returns
    normally when the logger does, and the dialog, rendered again, shows
    that option selected for the feature, with the "manually set" icon
    unless the option is "default", the on icon for "alwaysOn" and the off
    icon for "alwaysOff". *)
Theorem choosing_a_radio_option_selects_it
    (c : nat) (w w0 : World) (view : ModalView) (row : FeatureRow)
    (opt : RadioOption) (l : LoggerState) :
  reachable w →
  ExperimentalFeaturesModal c no_story_props w = Ok view w0 →
  row ∈ rows view →
  row_id row ≠ "__proto__" →
  opt ∈ radio_options row →
  logger {| feature := row_id row; value := option_id opt |} (loggerState w0)
  = (Returns, l) →
  ∃ w1 view' row',
    Radio_onChange (row_id row) (option_id opt) w0 = Ok tt w1
    ∧ ExperimentalFeaturesModal c no_story_props w1 = Ok view' w1
    ∧ row' ∈ rows view'
    ∧ row_id row' = row_id row
    ∧ radio_selectedId row' = option_id opt
    ∧ row_manuallySet row' = negb (bool_decide (option_id opt = "default"))
    ∧ (option_id opt = "alwaysOn" → row_icon row' = IconOn)
    ∧ (option_id opt = "alwaysOff" → row_icon row' = IconOff).
Proof.
  intros Hw Hview Hrow Hproto Hopt Hl.
  destruct (dialog_of_a_reachable_state c w w0 view Hw Hview) as (w00 & Hc & Hsub & ->).
  cbn [rows] in Hrow.
  apply rows_of_elem_of in Hrow as (id & feature & s & Hin & Hs & ->).
  cbn [row_of row_id radio_options] in *.
  apply radio_options_are_valid in Hopt.
  apply elem_of_map_to_list in Hin.
  set (v := option_id opt) in *. set (w1 := set_world id v l w0).
  assert (∀ e, e ∈ map_to_list experimentalFeaturesList →
               is_Some (setting_of (resolution w1) e.1)) as Hall.
  { intros [id' feature'] Hin'%elem_of_map_to_list.
    cbn. erewrite setting_of_resolution by done. eauto. }
  exists w1,
    {| no_features_notice :=
         bool_decide (length (map_to_list experimentalFeaturesList) = 0);
       rows := rows_of (resolution w1) (map_to_list experimentalFeaturesList) |},
    (row_of id feature (resolved (stored_entry w1 id) feature)).
  split_and!.
  - rewrite Radio_onChange_valid by done. by apply setExperimentalFeature_returns.
  - rewrite (ExperimentalFeaturesModal_run c _ (resolution w1) w1 w1).
    + cbn. by rewrite array_map_render_row_ok.
    + rewrite useAllExperimentalFeatures_run. unfold w1.
      by rewrite set_world_hookState, bool_decide_eq_true_2.
  - cbn [rows]. apply rows_of_elem_of. exists id, feature, (resolved (stored_entry w1 id) feature).
    split_and!; [by apply elem_of_map_to_list| |done].
    by apply setting_of_resolution.
  - done.
  - unfold w1. rewrite set_world_stored_entry, written_self by done.
    by destruct Hopt as [->|[->| ->]].
  - unfold w1. rewrite set_world_stored_entry, written_self by done.
    by destruct Hopt as [->|[->| ->]].
  - intros Hon. unfold w1. rewrite set_world_stored_entry, written_self by done.
    by rewrite Hon.
  - intros Hoff. unfold w1. rewrite set_world_stored_entry, written_self by done.
    by rewrite Hoff.
Qed.

(** X16. In the dialog rendered without story props, for a feature shown
    as left at its default, the label of the "default" option tells what
    the icon shows: the row offers an option
    "default" labelled "Default for <host> (on)" when the on icon is shown
    and "Default for <host> (off)" when the off icon is. *)
Theorem default_label_agrees_with_the_icon
    (c : nat) (w w' : World) (view : ModalView) (row : FeatureRow) :
  reachable w →
  ExperimentalFeaturesModal c no_story_props w = Ok view w' →
  row ∈ rows view →
  radio_selectedId row = "default" →
  ∃ opt,
    opt ∈ radio_options row
    ∧ option_id opt = "default"
    ∧ option_label opt
      = "Default for " ++ location_host
        ++ match row_icon row with IconOn => " (on)" | IconOff => " (off)" end.
Proof.
  intros Hw Hview Hrow Hselected.
  destruct (dialog_of_a_reachable_state c w w' view Hw Hview) as (w0 & _ & _ & ->).
  cbn [rows] in Hrow.
  apply rows_of_elem_of in Hrow as (id & feature & s & Hin & Hs & ->).
  apply elem_of_map_to_list in Hin.
  rewrite (setting_of_resolution _ _ feature) in Hs by done. injection Hs as <-.
  cbn [row_of radio_selectedId radio_options row_icon] in *.
  eexists. split; [by left|]. split; [reflexivity|].
  cbn [option_label]. unfold resolved in *.
  destruct (includes _ _); cbn [manuallySet enabled] in *.
  - by destruct (strict_equals _ _).
  - by destruct (feature_field feature getDefaultKey).
Qed.

End DialogProperties.

(** ** The properties at work on the example catalog *)

Section Runs.

Import Example.

(** The catalog has [featureA] on by default in development and off in
    production.  In production, with nothing persisted, reading it gives
    [false]; after setting it to "alwaysOn", [true]; after setting it back
    to "default", [false] again. *)
Example featureA_in_production :
  let w0 := @world_with production 0 ∅ [] in
  let w1 := world_of (@setExperimentalFeature production "featureA" "alwaysOn" w0) in
  let w2 := world_of (@setExperimentalFeature production "featureA" "default" w1) in
  @getExperimentalFeature production "featureA" w0 = Ok (Some (JBool false)) w0
  ∧ @getExperimentalFeature production "featureA" w1 = Ok (Some (JBool true)) w1
  ∧ @getExperimentalFeature production "featureA" w2 = Ok (Some (JBool false)) w2.
Proof. cbn zeta. split_and!; vm_compute; reflexivity. Qed.

(** In development the default is the other one, and "alwaysOff" beats
    it. *)
Example featureA_in_development :
  let w0 := @world_with development 0 ∅ [] in
  let w1 := world_of (@setExperimentalFeature development "featureA" "alwaysOff" w0) in
  @getExperimentalFeature development "featureA" w0 = Ok (Some (JBool true)) w0
  ∧ @getExperimentalFeature development "featureA" w1 = Ok (Some (JBool false)) w1.
Proof. cbn zeta. split_and!; vm_compute; reflexivity. Qed.

(** A failed validation in the radio handler and an unvalidated direct
    call, side by side. *)
Lemma invalid_value_is_rejected_by_the_radio_handler_witness :
  let w := @world_with production 0 ∅ [7] in
  (@Radio_onChange production "featureA" "sometimes" w
   = Throw (InvalidRadioValue "sometimes") w)
  ∧ ∃ w', @setExperimentalFeature production "featureA" "sometimes" w = Ok tt w'
          ∧ notified (new_events w w') = [7].
Proof.
  intros w.
  destruct (@invalid_value_is_rejected_by_the_radio_handler production
              "featureA" "sometimes" w) as [Hradio Hset]; [done..|].
  split; [exact Hradio|].
  destruct (Hset 1) as (w' & newSettings & settings & Hrun & _ & _ & Hnotified & _);
    [reflexivity|].
  exists w'. split; [exact Hrun|]. rewrite Hnotified. reflexivity.
Defined.

(** C1, as stated, fails: [setExperimentalFeature] called with a value
    outside "default", "alwaysOn", "alwaysOff" returns normally, has
    rewritten the persisted object and has notified the subscriber. *)
Lemma setExperimentalFeature_accepts_an_invalid_value :
  let w := @world_with production 0 ∅ [7] in
  let w' := world_of (@setExperimentalFeature production "featureA" "sometimes" w) in
  ("sometimes" ∉ ["default"; "alwaysOn"; "alwaysOff"])
  ∧ @setExperimentalFeature production "featureA" "sometimes" w = Ok tt w'
  ∧ storage w !! EXPERIMENTAL_FEATURES_STORAGE_KEY = None
  ∧ storage w' !! EXPERIMENTAL_FEATURES_STORAGE_KEY
    = Some (JObj {[ "featureA" := JStr "sometimes" ]})
  ∧ notified (new_events w w') = [7].
Proof.
  cbn zeta. split_and!; [|vm_compute; reflexivity..].
  intros H. repeat (apply elem_of_cons in H as [H|H]; [discriminate H|]).
  by apply not_elem_of_nil in H.
Qed.

Lemma logger_failure_aborts_the_write_witness :
  let w := @world_with broken_logging 0 ∅ [7] in
  ∃ w', @setExperimentalFeature broken_logging "featureA" "alwaysOn" w
        = Throw LoggerError w'
        ∧ storage w' = storage w.
Proof.
  intros w.
  destruct (@logger_failure_aborts_the_write broken_logging
              "featureA" "alwaysOn" w 1) as (w' & Hrun & Hstorage & _);
    [reflexivity|].
  exists w'. split; [exact Hrun|exact Hstorage].
Defined.

(** C2, as stated, fails: with a logger that throws, a call with a valid
    value throws to its caller, the persisted data stays absent and the
    subscriber is not notified. *)
Lemma logger_failure_reaches_the_caller :
  let w := @world_with broken_logging 0 ∅ [7] in
  let r := @setExperimentalFeature broken_logging "featureA" "alwaysOn" w in
  r = Throw LoggerError (world_of r)
  ∧ storage (world_of r) !! EXPERIMENTAL_FEATURES_STORAGE_KEY = None
  ∧ new_events w (world_of r)
    = [EvLogger {| feature := "featureA"; value := "alwaysOn" |}]
  ∧ notified (new_events w (world_of r)) = [].
Proof. cbn zeta. split_and!; vm_compute; reflexivity. Qed.

Lemma resolution_of_a_catalog_feature_witness :
  let w := @world_with production 0 (overrides {[ "featureA" := JStr "alwaysOn" ]}) [] in
  ∃ settings,
    @getExperimentalFeatureSettings production w = Ok settings w
    ∧ settings !! "featureA" = Some {| enabled := true; manuallySet := true |}.
Proof.
  intros w.
  destruct (@resolution_of_a_catalog_feature production "featureA" featureA w)
    as (settings & Hrun & Hon & _); [reflexivity|].
  exists settings. split; [exact Hrun|]. apply Hon. reflexivity.
Defined.

Lemma override_round_trip_witness :
  let w := @world_with production 0 ∅ [] in
  ∃ w1 w2 settings1 settings2,
    @setExperimentalFeature production "featureA" "alwaysOn" w = Ok tt w1
    ∧ @getExperimentalFeatureSettings production w1 = Ok settings1 w1
    ∧ settings1 !! "featureA" = Some {| enabled := true; manuallySet := true |}
    ∧ @setExperimentalFeature production "featureA" "default" w1 = Ok tt w2
    ∧ @getExperimentalFeatureSettings production w2 = Ok settings2 w2
    ∧ settings2 !! "featureA" = Some {| enabled := false; manuallySet := false |}.
Proof.
  intros w.
  apply (@override_round_trip production "featureA" featureA w 1 2);
    [reflexivity|discriminate|reflexivity|reflexivity].
Defined.

(** C4, as stated, fails: with a logger that throws, the call
    [setExperimentalFeature "featureA" "alwaysOn"] throws, and the resolution
    that follows gives the production default, not manually set, instead of
    enabled and manually set. *)
Lemma round_trip_fails_when_the_logger_throws :
  let w := @world_with broken_logging 0 ∅ [] in
  let r := @setExperimentalFeature broken_logging "featureA" "alwaysOn" w in
  @experimentalFeaturesList broken_logging !! "featureA" = Some featureA
  ∧ r = Throw LoggerError (world_of r)
  ∧ ∃ settings,
      @getExperimentalFeatureSettings broken_logging (world_of r)
      = Ok settings (world_of r)
      ∧ settings !! "featureA" = Some {| enabled := false; manuallySet := false |}.
Proof.
  cbn zeta. split_and!; [vm_compute; reflexivity..|].
  eexists. split; [apply getExperimentalFeatureSettings_run|].
  vm_compute. reflexivity.
Qed.

Lemma notifications_follow_the_write_witness :
  let w := @world_with production 0 ∅ [7] in
  let w' := world_of (@setExperimentalFeature production "featureA" "alwaysOn" w) in
  ∃ settings,
    storage w' !! EXPERIMENTAL_FEATURES_STORAGE_KEY
    = Some (JObj {[ "featureA" := JStr "alwaysOn" ]})
    ∧ @getExperimentalFeatureSettings production w' = Ok settings w'
    ∧ hookState w' !! 7 = Some settings.
Proof.
  intros w w'.
  destruct (@notifications_follow_the_write production "featureA" "alwaysOn" w)
    as [_ Hafter].
  destruct (Hafter
              [EvLogger {| feature := "featureA"; value := "alwaysOn" |};
               EvStorageSet EXPERIMENTAL_FEATURES_STORAGE_KEY
                 (JObj {[ "featureA" := JStr "alwaysOn" ]})]
              7 (Some (JObj {[ "featureA" := JStr "alwaysOn" ]})) [])
    as (newSettings & settings & _ & _ & _ & Hseen & Hstored & Hget & Hhook);
    [vm_compute; reflexivity|].
  injection Hseen as <-.
  exists settings. split_and!; [exact Hstored|exact Hget|exact Hhook].
Defined.

(** Two components mount one after the other; both are notified, in that
    order. *)
Lemma every_subscriber_is_notified_once_in_order_witness :
  let w0 := @world_with production 0 ∅ [] in
  let w1 := world_of (@useExperimentalFeature production 3 "featureA" w0) in
  let w2 := world_of (@useExperimentalFeature production 5 "featureB" w1) in
  ∃ w', @setExperimentalFeature production "featureA" "alwaysOn" w2 = Ok tt w'
        ∧ notified (new_events w2 w') = [3; 5]
        ∧ length (filter (λ c', c' = 5) (notified (new_events w2 w'))) = 1.
Proof.
  intros w0 w1 w2.
  destruct (@every_subscriber_is_notified_once_in_order production
              "featureA" "alwaysOn" w2 1)
    as (w' & Hrun & _ & Hnotified & Honce); [reflexivity|].
  exists w'. split_and!.
  - exact Hrun.
  - rewrite Hnotified. reflexivity.
  - apply Honce.
    + apply (reachable_step w1); [|apply step_render].
      apply (reachable_step w0); [|apply step_render].
      apply reachable_initial. split; reflexivity.
    + change (5 ∈ [3; 5]). right. left.
Defined.

(** C6, as stated, fails: with a logger that throws, a call made while two
    callbacks are registered invokes neither of them. *)
Lemma no_subscriber_is_notified_when_the_logger_throws :
  let w := @world_with broken_logging 0 ∅ [3; 5] in
  let r := @setExperimentalFeature broken_logging "featureA" "alwaysOn" w in
  subscribedComponents w = [3; 5]
  ∧ r = Throw LoggerError (world_of r)
  ∧ notified (new_events w (world_of r)) = []
  ∧ trace (world_of r) = [EvLogger {| feature := "featureA"; value := "alwaysOn" |}].
Proof. cbn zeta. split_and!; vm_compute; reflexivity. Qed.



(** The failing input of C8: "constructor" is not in the catalog, and both
    reads return [undefined]. *)
Lemma unknown_feature_reads_false_unless_inherited_witness :
  let w := @world_with production 0 ∅ [] in
  @experimentalFeaturesList production !! "constructor" = None
  ∧ @getExperimentalFeature production "constructor" w = Ok undefined w
  ∧ ∃ w', @useExperimentalFeature production 3 "constructor" w = Ok undefined w'.
Proof.
  intros w.
  destruct (@unknown_feature_reads_false_unless_inherited production "constructor")
    as [Hget Huse]; [reflexivity|].
  split_and!; [reflexivity|apply Hget|].
  apply Huse. apply reachable_initial. split; reflexivity.
Defined.

(** An entry for an id that is no longer in the catalog survives a write
    to another id. *)
Lemma other_entries_are_carried_over_witness :
  let w := @world_with production 0 (overrides {[ "retired" := JStr "alwaysOff" ]}) [] in
  let w' := world_of (@setExperimentalFeature production "featureA" "alwaysOn" w) in
  spread (storage w' !! EXPERIMENTAL_FEATURES_STORAGE_KEY) !! "retired"
  = Some (JStr "alwaysOff").
Proof.
  intros w w'.
  destruct (@other_entries_are_carried_over production
              "featureA" "alwaysOn" "retired" w) as [Hkept _]; [done|].
  etrans; [exact Hkept|]. reflexivity.
Defined.

End Runs.


(** ** The further properties at work on the example catalog *)

Section MoreRuns.

Import Example DialogExample.

Lemma setExperimentalFeature_writes_its_key_only_witness :
  let w := @world_with production 0 {[ "layout" := JStr "grid" ]} [7] in
  let w' := world_of (@setExperimentalFeature production "featureA" "alwaysOn" w) in
  storage w' !! "layout" = Some (JStr "grid").
Proof.
  intros w w'.
  destruct (@setExperimentalFeature_writes_its_key_only production
              "featureA" "alwaysOn" "layout" w) as [Hkept _];
    [unfold EXPERIMENTAL_FEATURES_STORAGE_KEY; discriminate|].
  etrans; [exact Hkept|]. reflexivity.
Defined.

Lemma resetting_a_feature_without_entry_witness :
  let w := @world_with production 0 ∅ [7] in
  ∃ w', @setExperimentalFeature production "featureA" "default" w = Ok tt w'
        ∧ storage w' !! EXPERIMENTAL_FEATURES_STORAGE_KEY = Some (JObj ∅)
        ∧ notified (new_events w w') = [7].
Proof.
  intros w.
  destruct (@resetting_a_feature_without_entry production "featureA" w 1)
    as (w' & Hrun & Hstored & Hnotified); [reflexivity..|].
  exists w'. split_and!; [exact Hrun|exact Hstored|].
  rewrite Hnotified. reflexivity.
Defined.

Lemma last_write_wins_witness :
  let w := @world_with production 0 (overrides {[ "featureB" := JStr "alwaysOn" ]}) [] in
  ∃ w1 w2 newSettings,
    @setExperimentalFeature production "featureA" "alwaysOn" w = Ok tt w1
    ∧ @setExperimentalFeature production "featureA" "alwaysOff" w1 = Ok tt w2
    ∧ storage w2 !! EXPERIMENTAL_FEATURES_STORAGE_KEY = Some (JObj newSettings)
    ∧ newSettings !! "featureA" = Some (JStr "alwaysOff").
Proof.
  intros w.
  destruct (@last_write_wins production "featureA" "alwaysOn" "alwaysOff" w 1 2)
    as (w1 & w2 & newSettings & Hrun1 & Hrun2 & Hstored & Hid & _); [reflexivity..|].
  exists w1, w2, newSettings.
  split_and!; [exact Hrun1|exact Hrun2|exact Hstored|apply Hid; discriminate].
Defined.

Lemma writes_for_different_ids_commute_witness :
  let w := @world_with production 0 ∅ [] in
  storage (world_of ((@setExperimentalFeature production "featureA" "alwaysOn" ;;
                      @setExperimentalFeature production "featureB" "alwaysOff") w))
  = storage (world_of ((@setExperimentalFeature production "featureB" "alwaysOff" ;;
                        @setExperimentalFeature production "featureA" "alwaysOn") w)).
Proof.
  intros w.
  apply (@writes_for_different_ids_commute production
           "featureA" "alwaysOn" "featureB" "alwaysOff" w).
  - discriminate.
  - intros ev l. reflexivity.
Defined.

Lemma unmounted_component_is_not_notified_witness :
  let w := @world_with production 0 ∅ [3; 5] in
  let w1 := world_of (@cleanup production 3 w) in
  ∃ w2, @setExperimentalFeature production "featureA" "alwaysOn" w1 = Ok tt w2
        ∧ notified (new_events w1 w2) = [5].
Proof.
  intros w w1.
  destruct (@unmounted_component_is_not_notified production 3 "featureA" "alwaysOn" w 1)
    as (w2 & Hrun & Hnotified & _); [reflexivity|].
  exists w2. split; [exact Hrun|]. etrans; [exact Hnotified|]. reflexivity.
Defined.

Lemma cleanup_is_idempotent_witness :
  let w := @world_with production 0 ∅ [3; 5] in
  subscribedComponents (world_of (@cleanup production 9 w)) = [3; 5].
Proof.
  intros w.
  destruct (@cleanup_is_idempotent production 9 w) as [_ Hkept].
  etrans; [apply Hkept|reflexivity].
  apply (bool_decide_unpack _). vm_compute. exact I.
Defined.

Lemma first_render_subscribes_witness :
  let w := @world_with production 0 (overrides {[ "featureA" := JStr "alwaysOn" ]}) [5] in
  ∃ w', @useExperimentalFeature production 3 "featureA" w = Ok (Some (JBool true)) w'
        ∧ subscribedComponents w' = [5; 3].
Proof.
  intros w.
  destruct (@first_render_subscribes production 3 "featureA" w)
    as (b & w' & Hrun & Hget & Hsubs & _); [reflexivity|].
  exists w'. split; [|exact Hsubs].
  rewrite Hrun. f_equal.
  assert (Ok b w = Ok (Some (JBool true)) w) as Hb
    by (rewrite <- Hget; vm_compute; reflexivity).
  by injection Hb.
Defined.

Lemma subscribers_agree_with_getExperimentalFeature_witness :
  let w := @world_with production 0 ∅ [7] in
  ∃ w' b,
    @setExperimentalFeature production "featureA" "alwaysOn" w = Ok tt w'
    ∧ @useExperimentalFeature production 7 "featureA" w' = Ok b w'
    ∧ @getExperimentalFeature production "featureA" w' = Ok b w'.
Proof.
  intros w.
  apply (@subscribers_agree_with_getExperimentalFeature production
           "featureA" "alwaysOn" "featureA" 7 w 1); [reflexivity|].
  change (7 ∈ [7]). left.
Defined.

(** A change of the persisted data from outside leaves the settings of a
    mounted component as they are. *)
Lemma settings_change_only_when_notified_witness :
  let w := @world_with production 0 ∅ [7] in
  let w' := set_storage (λ _, overrides {[ "featureA" := JStr "alwaysOn" ]}) w in
  hookState w' !! 7 = Some ∅.
Proof.
  intros w w'.
  destruct (@settings_change_only_when_notified production 7 ∅ w)
    as (_ & _ & Hstorage & _); [reflexivity|].
  apply Hstorage.
Defined.

Lemma registry_holds_the_mounted_components_witness :
  let w0 := @world_with production 0 ∅ [] in
  let w1 := world_of (@useExperimentalFeature production 3 "featureA" w0) in
  let w2 := world_of (@cleanup production 3 w1) in
  NoDup (subscribedComponents w2) ∧ hookState w2 !! 3 = None.
Proof.
  intros w0 w1 w2.
  destruct (@registry_holds_the_mounted_components production w2)
    as (Hnd & Hreg & _).
  - apply (reachable_step w1); [|apply step_unmount].
    apply (reachable_step w0); [|apply step_render].
    apply reachable_initial. split; reflexivity.
  - split; [exact Hnd|]. reflexivity.
Defined.

Lemma dialog_needs_settings_for_every_listed_feature_witness :
  let w := @world_with production 0 ∅ [] in
  @ExperimentalFeaturesModal production localhost 3 story_without_settings w
  = Throw TypeError w
  ∧ (∃ view w', @ExperimentalFeaturesModal production localhost 3 story_with_settings w
                = Ok view w'
                ∧ row_id <$> rows view = ["featureA"]).
Proof.
  intros w. split.
  - destruct (@dialog_needs_settings_for_every_listed_feature production localhost
                3 story_without_settings w) as (actual & w' & _ & _ & Hthrows).
    apply (Hthrows "featureA"); [by eexists|reflexivity|reflexivity].
  - destruct (@dialog_needs_settings_for_every_listed_feature production localhost
                3 story_with_settings w) as (actual & w' & _ & Hok & _).
    destruct Hok as (view & Hview & Hids).
    + intros id. cbn.
      destruct (decide (id = "featureA")) as [->|Hne]; [left; by eexists|].
      rewrite lookup_singleton_ne by done. by intros [? [=]].
    + exists view, w'. split; [exact Hview|]. etrans; [exact Hids|]. reflexivity.
Defined.

Lemma dialog_shows_every_catalog_feature_witness :
  let w := @world_with production 0 ∅ [] in
  ∃ view w',
    @ExperimentalFeaturesModal production localhost 3 no_story_props w = Ok view w'
    ∧ length (rows view) = 2
    ∧ no_features_notice view ≠ true.
Proof.
  intros w.
  destruct (@dialog_shows_every_catalog_feature production localhost 3 w)
    as (view & w' & Hview & Hids & Hnotice);
    [apply reachable_initial; split; reflexivity|].
  exists view, w'. split_and!.
  - exact Hview.
  - rewrite <- (length_fmap row_id), Hids. reflexivity.
  - intros Hshown. apply Hnotice in Hshown.
    apply (f_equal (λ m : FeatureDescriptions, m !! "featureA")) in Hshown.
    discriminate Hshown.
Defined.

Lemma choosing_a_radio_option_selects_it_witness :
  let w := @world_with production 0 ∅ [] in
  let w0 := world_of (@ExperimentalFeaturesModal production localhost 3 no_story_props w) in
  ∃ w1 view' row',
    @Radio_onChange production "featureA" "alwaysOn" w0 = Ok tt w1
    ∧ @ExperimentalFeaturesModal production localhost 3 no_story_props w1 = Ok view' w1
    ∧ row' ∈ rows view'
    ∧ row_id row' = "featureA"
    ∧ radio_selectedId row' = "alwaysOn"
    ∧ row_icon row' = IconOn.
Proof.
  intros w w0.
  destruct (@choosing_a_radio_option_selects_it production localhost 3 w w0
              {| no_features_notice := false;
                 rows := @rows_of production localhost (@resolution production w)
                           (map_to_list catalog) |}
              (@row_of production localhost "featureA" featureA
                 {| enabled := false; manuallySet := false |})
              {| option_id := "alwaysOn"; option_label := "Always on" |} 1)
    as (w1 & view' & row' & Hrun & Hview' & Hrow' & Hid & Hselected & _ & Hicon & _).
  - apply reachable_initial. split; reflexivity.
  - vm_compute. reflexivity.
  - cbn [rows]. apply rows_of_elem_of.
    exists "featureA", featureA, {| enabled := false; manuallySet := false |}.
    split_and!; [by apply elem_of_map_to_list|reflexivity|reflexivity].
  - discriminate.
  - right. left.
  - reflexivity.
  - exists w1, view', row'.
    split_and!; [exact Hrun|exact Hview'|exact Hrow'|exact Hid|exact Hselected|by apply Hicon].
Defined.

Lemma default_label_agrees_with_the_icon_witness :
  let w := @world_with production 0 ∅ [] in
  let row := @row_of production localhost "featureA" featureA
               {| enabled := false; manuallySet := false |} in
  ∃ opt,
    opt ∈ radio_options row
    ∧ option_id opt = "default"
    ∧ option_label opt = "Default for localhost:8080 (off)".
Proof.
  intros w row.
  destruct (@default_label_agrees_with_the_icon production localhost 3 w
              (world_of (@ExperimentalFeaturesModal production localhost 3 no_story_props w))
              {| no_features_notice := false;
                 rows := @rows_of production localhost (@resolution production w)
                           (map_to_list catalog) |}
              row)
    as (opt & Hopt & Hid & Hlabel).
  - apply reachable_initial. split; reflexivity.
  - vm_compute. reflexivity.
  - cbn [rows]. apply rows_of_elem_of.
    exists "featureA", featureA, {| enabled := false; manuallySet := false |}.
    split_and!; [by apply elem_of_map_to_list|reflexivity|reflexivity].
  - reflexivity.
  - exists opt. split_and!; [exact Hopt|exact Hid|exact Hlabel].
Defined.

End MoreRuns.
